(** * Sales dashboard core: normalisation, filtering, KPI, pivot and series

    A shallow embedding of the data engine of [src/index.tsx]
    ([cleanString], [parseNum], [normalizeData], and the [filteredData],
    [stats], [pivotTable] and [chartData] computations of [App], together
    with the pivot row totals computed while rendering the table).

    Modelling conventions.
    - JS strings are lists of UTF-16 code units ([jstr], a [list N]); the
      helper [js] decodes a UTF-8 literal so that Cyrillic keys read as in
      the source.
    - JS numbers are exact rationals [Q] (IEEE rounding is not modelled;
      every stated equality is [Qeq], written [==]).
    - JSON values are the inductive [jsval]; an object is an association
      list whose first binding of a key is the property.
    - A JS [TypeError] (reading a property of [undefined] or [null]) is the
      [None] branch of an [option]. *)

From Stdlib Require Import QArith Qround Sorting.Sorted Permutation Ascii Lqa.
From stdpp Require Import base list strings gmap.

Local Set Warnings "-register-all".
Local Open Scope N_scope.

(** ** JS strings *)

Definition jstr := list N.

(** Decode a UTF-8 string literal (one to three byte sequences, i.e. the
    Basic Multilingual Plane) into UTF-16 code units. *)
Fixpoint js (s : string) : jstr :=
  match s with
  | EmptyString => []
  | String a s1 =>
      let b := N_of_ascii a in
      if b <? 128 then b :: js s1
      else if b <? 224 then
        match s1 with
        | String a2 s2 => (b - 192) * 64 + (N_of_ascii a2 - 128) :: js s2
        | EmptyString => []
        end
      else
        match s1 with
        | String a2 (String a3 s3) =>
            ((b - 224) * 64 + (N_of_ascii a2 - 128)) * 64
              + (N_of_ascii a3 - 128) :: js s3
        | _ => []
        end
  end.

Fixpoint jstr_eqb (a b : jstr) : bool :=
  match a, b with
  | [], [] => true
  | x :: a', y :: b' => N.eqb x y && jstr_eqb a' b'
  | _, _ => false
  end.

(** Code-unit lexicographic order: JS [<] on strings and the default
    [Array.prototype.sort] order. *)
Fixpoint jstr_compare (a b : jstr) : comparison :=
  match a, b with
  | [], [] => Eq
  | [], _ :: _ => Lt
  | _ :: _, [] => Gt
  | x :: a', y :: b' =>
      match N.compare x y with Eq => jstr_compare a' b' | c => c end
  end.

Definition jstr_ltb (a b : jstr) : bool :=
  match jstr_compare a b with Lt => true | _ => false end.

(** [a.includes(b)] on strings: [b] is a contiguous substring of [a]. *)
Fixpoint prefixb (p s : jstr) : bool :=
  match p, s with
  | [], _ => true
  | x :: p', y :: s' => N.eqb x y && prefixb p' s'
  | _ :: _, [] => false
  end.

Fixpoint str_includes (s p : jstr) : bool :=
  prefixb p s || match s with [] => false | _ :: s' => str_includes s' p end.

(** [array.includes(x)] for an array of strings. *)
Definition arr_includes (xs : list jstr) (x : jstr) : bool :=
  existsb (jstr_eqb x) xs.

Fixpoint takeWhileB {A} (p : A -> bool) (l : list A) : list A :=
  match l with [] => [] | x :: l' => if p x then x :: takeWhileB p l' else [] end.

Fixpoint dropWhileB {A} (p : A -> bool) (l : list A) : list A :=
  match l with [] => [] | x :: l' => if p x then dropWhileB p l' else l end.

(** WhiteSpace and LineTerminator code units of ECMAScript: the set
    removed by [trim] and matched by the regular expression class [\s]. *)
Definition isWS (c : N) : bool :=
  existsb (N.eqb c)
    [9; 10; 11; 12; 13; 32; 160; 5760; 8192; 8193; 8194; 8195; 8196; 8197;
     8198; 8199; 8200; 8201; 8202; 8232; 8233; 8239; 8287; 12288; 65279].

Definition isNL (c : N) : bool := N.eqb c 10 || N.eqb c 13.

Definition isDigit (c : N) : bool := (48 <=? c) && (c <=? 57).

Definition trim (s : jstr) : jstr :=
  rev (dropWhileB isWS (rev (dropWhileB isWS s))).

(** [String.prototype.toLowerCase] on Basic Latin, Latin-1 and the basic
    Cyrillic block; other code units are left unchanged. *)
Definition lowerUnit (c : N) : N :=
  if (65 <=? c) && (c <=? 90) then c + 32
  else if (192 <=? c) && (c <=? 222) && negb (N.eqb c 215) then c + 32
  else if (1024 <=? c) && (c <=? 1039) then c + 80
  else if (1040 <=? c) && (c <=? 1071) then c + 32
  else c.

Definition toLowerCase (s : jstr) : jstr := map lowerUnit s.

(** Decimal digits of a natural number. *)
Fixpoint digitsAux (fuel : nat) (n : N) (acc : jstr) : jstr :=
  match fuel with
  | O => acc
  | S f =>
      if n <? 10 then (48 + n) :: acc
      else digitsAux f (n / 10) ((48 + n mod 10) :: acc)
  end.

Definition decimalN (n : N) : jstr := digitsAux (S (N.size_nat n)) n [].

Fixpoint fracDigits (fuel : nat) (r d : N) : jstr :=
  match fuel with
  | O => []
  | S f =>
      if N.eqb r 0 then []
      else (48 + (10 * r) / d) :: fracDigits f ((10 * r) mod d) d
  end.

(** [Number.prototype.toString] for finite decimals in plain notation (up
    to 20 fractional digits); the exponent notation used below [1e-6] and
    from [1e21] on is not modelled. *)
Definition numToString (q : Q) : jstr :=
  let q := Qred q in
  let a := Z.to_N (Z.abs (Qnum q)) in
  let d := Npos (Qden q) in
  let body := decimalN (a / d)
    ++ (if N.eqb (a mod d) 0 then [] else 46 :: fracDigits 20 (a mod d) d) in
  if (Qnum q <? 0)%Z then 45 :: body else body.

(** ** JSON values *)

Inductive jsval :=
| JUndefined
| JNull
| JBool (b : bool)
| JNum (q : Q)
| JStr (s : jstr)
| JArr (xs : list jsval)
| JObj (props : list (jstr * jsval)).

(** JS truthiness ([NaN] does not occur among exact rationals). *)
Definition truthy (v : jsval) : bool :=
  match v with
  | JUndefined | JNull => false
  | JBool b => b
  | JNum q => negb (Qeq_bool q 0)
  | JStr s => negb (bool_decide (s = []))
  | JArr _ | JObj _ => true
  end.

(** [a || b]. *)
Definition jsor (a b : jsval) : jsval := if truthy a then a else b.

Fixpoint assocGet (props : list (jstr * jsval)) (k : jstr) : jsval :=
  match props with
  | [] => JUndefined
  | (k', v) :: ps => if jstr_eqb k k' then v else assocGet ps k
  end.

(** Property read [v.k]: a [TypeError] on [null] and [undefined]; the keys
    read by the normaliser are no own or inherited property of primitives
    or arrays, so reading them there gives [undefined]. *)
Definition getProp (v : jsval) (k : jstr) : option jsval :=
  match v with
  | JUndefined | JNull => None
  | JObj ps => Some (assocGet ps k)
  | _ => Some JUndefined
  end.

(** Property read on a value known to be an object or a non-null
    primitive (the wrapper-resolved row). *)
Definition prop (v : jsval) (k : jstr) : jsval :=
  match v with JObj ps => assocGet ps k | _ => JUndefined end.

Fixpoint joinComma (xs : list jstr) : jstr :=
  match xs with
  | [] => []
  | [x] => x
  | x :: xs' => x ++ 44 :: joinComma xs'
  end.

(** [String(v)]. *)
Fixpoint jsToString (v : jsval) : jstr :=
  match v with
  | JUndefined => js "undefined"
  | JNull => js "null"
  | JBool true => js "true"
  | JBool false => js "false"
  | JNum q => numToString q
  | JStr s => s
  | JArr xs =>
      joinComma (map (fun x => match x with
                               | JUndefined | JNull => []
                               | _ => jsToString x
                               end) xs)
  | JObj _ => js "[object Object]"
  end.

(** ** Value coercion ([cleanString], [parseNum]) *)

Definition cleanString (v : jsval) : jstr :=
  match v with
  | JNull | JUndefined => []
  | _ => trim (List.filter (fun c => negb (isNL c)) (jsToString v))
  end.

(** [s.replace(',', '.')]: the first comma only. *)
Fixpoint replaceFirstComma (s : jstr) : jstr :=
  match s with
  | [] => []
  | c :: s' => if N.eqb c 44 then 46 :: s' else c :: replaceFirstComma s'
  end.

Fixpoint digitsValue (acc : N) (ds : jstr) : N :=
  match ds with [] => acc | d :: ds' => digitsValue (10 * acc + (d - 48)) ds' end.

(** [parseFloat]: the longest prefix [[+|-] digits [. digits]] after
    leading white space, [None] standing for [NaN]. The exponent part and
    [Infinity] are not modelled: [parseNum] strips every letter first. *)
Definition parseFloat (s : jstr) : option Q :=
  let s := dropWhileB isWS s in
  let '(neg, s) :=
    match s with
    | 45 :: t => (true, t)
    | 43 :: t => (false, t)
    | _ => (false, s)
    end in
  let ip := takeWhileB isDigit s in
  let rest := dropWhileB isDigit s in
  let fp := match rest with 46 :: t => takeWhileB isDigit t | _ => [] end in
  if bool_decide (ip = []) && bool_decide (fp = []) then None
  else
    let v := (inject_Z (Z.of_N (digitsValue 0 (ip ++ fp)))
              / inject_Z (10 ^ Z.of_nat (length fp)))%Q in
    Some (if neg then (- v)%Q else v).

Definition parseNum (v : jsval) : Q :=
  match v with
  | JNum q => q
  | _ =>
      if negb (truthy v) then 0%Q
      else
        let cleaned :=
          List.filter (fun c => isDigit c || N.eqb c 46 || N.eqb c 45)
            (replaceFirstComma
               (List.filter (fun c => negb (isWS c))
                  (List.filter (fun c => negb (isNL c)) (jsToString v)))) in
        match parseFloat cleaned with Some q => q | None => 0%Q end
  end.

(** ** Row normaliser ([normalizeData]) *)

Inductive UnitType := Kg | Pcs.

Definition unitTypeString (u : UnitType) : jstr :=
  match u with Kg => js "kg" | Pcs => js "pcs" end.

Record NormalizedRow := {
  id : jstr;
  date : jstr;
  store_name : jstr;
  category_name : jstr;
  unit_raw : jstr;
  unit_type : UnitType;
  pieces_per_kg : Q;
  weight_kg : Q;
  revenue_rub : Q;
  checks : Q;
  pieces : Q;
  week : Q;
  month : Q;
  quarter : Q;
  year : Q;
  atv : Q;
  upt : Q;
  avg_price_per_kg : Q;
  avg_price_per_piece : Q
}.

(** [x > 0]. *)
Definition Qgtb0 (x : Q) : bool := negb (Qle_bool x 0).

(** The guarded ratio [den > 0 ? num / den : 0]. *)
Definition guardedRatio (num den : Q) : Q :=
  if Qgtb0 den then (num / den)%Q else 0%Q.

(** The body of the [raw.map] callback once the wrapper is resolved. *)
Definition normalizeRow (idx : nat) (row : jsval) : NormalizedRow :=
  let p := prop row in
  let revenue := parseNum (jsor (jsor (p (js "revenue_rub")) (p (js "Выручка, ₽")))
                              (p (js "revenue_rub_raw"))) in
  let checks := parseNum (jsor (p (js "checks")) (p (js "Чеки, шт."))) in
  let pieces := parseNum (jsor (jsor (p (js "pieces")) (p (js "Штуки")))
                             (p (js "peaces"))) in
  let weight := parseNum (jsor (p (js "weight_kg")) (p (js "Вес, кг"))) in
  let dateStr := cleanString (jsor (p (js "date")) (p (js "Дата"))) in
  let store := cleanString (jsor (jsor (p (js "store_name")) (p (js "Магазин")))
                              (JStr (js "Неизвестно"))) in
  let category := cleanString (jsor (jsor (p (js "category_name"))
                                          (p (js "Категория товара")))
                                 (JStr (js "Прочее"))) in
  let rawUnit := cleanString (jsor (p (js "unit_raw")) (p (js "Шт. в кг"))) in
  let unitTypeClean := toLowerCase (cleanString (p (js "unit_type"))) in
  let unitType :=
    if str_includes unitTypeClean (js "kg") || str_includes unitTypeClean (js "кг")
       || str_includes (toLowerCase rawUnit) (js "кг")
    then Kg else Pcs in
  let idStr := cleanString (p (js "id")) in
  let yearNum := parseNum (p (js "year")) in
  {| id := if bool_decide (idStr = []) then js "row-" ++ decimalN (N.of_nat idx)
           else idStr;
     date := dateStr;
     store_name := store;
     category_name := category;
     unit_raw := rawUnit;
     unit_type := unitType;
     pieces_per_kg := parseNum (p (js "pieces_per_kg"));
     weight_kg := weight;
     revenue_rub := revenue;
     checks := checks;
     pieces := pieces;
     week := parseNum (p (js "week"));
     month := parseNum (p (js "month"));
     quarter := parseNum (p (js "quarter"));
     year := if Qeq_bool yearNum 0 then 2025%Q else yearNum;
     atv := guardedRatio revenue checks;
     upt := guardedRatio pieces checks;
     avg_price_per_kg := guardedRatio revenue weight;
     avg_price_per_piece := guardedRatio revenue pieces |}.

(** [const row = item.json ? item.json : item]: reading [item.json] throws
    when [item] is [null] or [undefined]. *)
Definition normalizeItem (idx : nat) (item : jsval) : option NormalizedRow :=
  j ← getProp item (js "json");
  Some (normalizeRow idx (if truthy j then j else item)).

Fixpoint normalizeFrom (idx : nat) (raw : list jsval) : option (list NormalizedRow) :=
  match raw with
  | [] => Some []
  | item :: raw' =>
      r ← normalizeItem idx item;
      rs ← normalizeFrom (S idx) raw';
      Some (r :: rs)
  end.

Definition normalizeData (raw : list jsval) : option (list NormalizedRow) :=
  normalizeFrom 0 raw.

Definition obj (kvs : list (string * jsval)) : jsval :=
  JObj (map (fun '(k, v) => (js k, v)) kvs).

(** ** JS helpers shared by the views *)

(** [cmp(x, y) < 0]. *)
Definition Qltb0 (x : Q) : bool := negb (Qle_bool 0 x).

(** [Array.prototype.sort] with a comparator, as a stable insertion sort
    (the engine uses binary insertion sort on short arrays and TimSort in
    general, both stable; for a consistent comparator every such sort gives
    this result). A later element goes after every element it does not
    compare strictly below. *)
Fixpoint insertBy {A} (cmp : A -> A -> Q) (x : A) (l : list A) : list A :=
  match l with
  | [] => [x]
  | y :: l' => if Qltb0 (cmp x y) then x :: l else y :: insertBy cmp x l'
  end.

Definition sortBy {A} (cmp : A -> A -> Q) (l : list A) : list A :=
  fold_left (fun acc x => insertBy cmp x acc) l [].

Definition cmpToQ (c : comparison) : Q :=
  match c with Lt => (-1)%Q | Eq => 0%Q | Gt => 1%Q end.

(** The default comparator of [sort()] on strings. *)
Definition defaultCmp (a b : jstr) : Q := cmpToQ (jstr_compare a b).

(** [a.localeCompare(b)], modelled by code-unit order (ICU collation agrees
    with it on ASCII digits against lowercase letters and on strings of
    digits of equal length). *)
Definition localeCompare (a b : jstr) : Q := cmpToQ (jstr_compare a b).

(** [Array.from(new Set(xs))]: first occurrences, in order. *)
Definition uniq (xs : list jstr) : list jstr :=
  fold_left (fun acc x => if arr_includes acc x then acc else acc ++ [x]) xs [].

(** [Number(s)] on strings: surrounding white space ignored, the empty
    string is [0], a decimal literal with sign, fraction and exponent, or an
    unsigned [0x]/[0o]/[0b] literal; [None] stands for [NaN]. [Infinity] is
    not modelled. *)
Definition signOf (s : jstr) : bool * jstr :=
  match s with 45 :: t => (true, t) | 43 :: t => (false, t) | _ => (false, s) end.

Definition radixDigit (radix c : N) : option N :=
  let v := if isDigit c then Some (c - 48)
           else if (97 <=? c) && (c <=? 102) then Some (c - 87)
           else if (65 <=? c) && (c <=? 70) then Some (c - 55)
           else None in
  match v with Some d => if d <? radix then Some d else None | None => None end.

Fixpoint radixValue (radix acc : N) (s : jstr) : option N :=
  match s with
  | [] => Some acc
  | c :: s' => d ← radixDigit radix c; radixValue radix (radix * acc + d) s'
  end.

Definition decimalLiteral (s : jstr) : option Q :=
  let '(neg, s) := signOf s in
  let ip := takeWhileB isDigit s in
  let s1 := dropWhileB isDigit s in
  let '(fp, s2) := match s1 with
                   | 46 :: t => (takeWhileB isDigit t, dropWhileB isDigit t)
                   | _ => ([], s1)
                   end in
  let ex := match s2 with
            | [] => Some 0%Z
            | e :: t =>
                if N.eqb e 101 || N.eqb e 69 then
                  let '(eneg, t) := signOf t in
                  let ed := takeWhileB isDigit t in
                  if bool_decide (ed = []) || negb (bool_decide (dropWhileB isDigit t = []))
                  then None
                  else let z := Z.of_N (digitsValue 0 ed) in
                       Some (if eneg then (- z)%Z else z)
                else None
            end in
  if bool_decide (ip = []) && bool_decide (fp = []) then None
  else
    match ex with
    | None => None
    | Some e =>
        let v := (inject_Z (Z.of_N (digitsValue 0 (ip ++ fp)))
                  * Qpower 10 (e - Z.of_nat (length fp)))%Q in
        Some (if neg then (- v)%Q else v)
    end.

Definition jsNumber (s : jstr) : option Q :=
  let t := trim s in
  match t with
  | [] => Some 0%Q
  | 48 :: x :: ds =>
      let radix := if N.eqb x 120 || N.eqb x 88 then 16
                   else if N.eqb x 111 || N.eqb x 79 then 8
                   else if N.eqb x 98 || N.eqb x 66 then 2 else 0 in
      if N.eqb radix 0 then decimalLiteral t
      else if bool_decide (ds = []) then None
      else option_map (fun n => inject_Z (Z.of_N n)) (radixValue radix 0 ds)
  | _ => decimalLiteral t
  end.

(** ** Filter engine ([filteredData]) *)

Module Filter.

Record Filters := {
  dateFrom : jstr;
  dateTo : jstr;
  stores : list jstr;
  categories : list jstr;
  unitTypes : list jstr
}.

Definition nonEmpty {A} (l : list A) : bool := negb (Nat.eqb (length l) 0).

Definition keep (filters : Filters) (d : NormalizedRow) : bool :=
  if nonEmpty (dateFrom filters) && jstr_ltb (date d) (dateFrom filters) then false
  else if nonEmpty (dateTo filters) && jstr_ltb (dateTo filters) (date d) then false
  else if nonEmpty (stores filters)
          && negb (arr_includes (stores filters) (store_name d)) then false
  else if nonEmpty (categories filters)
          && negb (arr_includes (categories filters) (category_name d)) then false
  else if nonEmpty (unitTypes filters)
          && negb (arr_includes (unitTypes filters) (unitTypeString (unit_type d))) then false
  else true.

Definition filteredData (data : list NormalizedRow) (filters : Filters) : list NormalizedRow :=
  List.filter (keep filters) data.

End Filter.

(** ** KPI aggregator ([stats]); the display formatting is left out. *)

Module KPI.

Record Total := { rev : Q; chk : Q; pcs : Q; wgt : Q }.

(** The reducer [(acc, curr) => ({ rev: acc.rev + curr.revenue_rub, ... })]. *)
Definition addRow (acc : Total) (curr : NormalizedRow) : Total :=
  {| rev := rev acc + revenue_rub curr;
     chk := chk acc + checks curr;
     pcs := pcs acc + pieces curr;
     wgt := wgt acc + weight_kg curr |}%Q.

Definition total (filteredData : list NormalizedRow) : Total :=
  fold_left addRow filteredData {| rev := 0; chk := 0; pcs := 0; wgt := 0 |}%Q.

Record Stats := { revenue : Q; checks : Q; pieces : Q; weight : Q; atv : Q; upt : Q }.

Definition stats (filteredData : list NormalizedRow) : Stats :=
  let t := total filteredData in
  {| revenue := rev t; checks := chk t; pieces := pcs t; weight := wgt t;
     atv := guardedRatio (rev t) (chk t);
     upt := guardedRatio (pcs t) (chk t) |}.

End KPI.

(** ** Pivot engine ([pivotTable] and the row totals of the rendered table) *)

Module Pivot.

(** [keyof NormalizedRow]. *)
Inductive Field :=
| f_id | f_date | f_store_name | f_category_name | f_unit_raw | f_unit_type
| f_pieces_per_kg | f_weight_kg | f_revenue_rub | f_checks | f_pieces | f_week
| f_month | f_quarter | f_year | f_atv | f_upt | f_avg_price_per_kg
| f_avg_price_per_piece.

(** [String(d[k])]. *)
Definition fieldString (k : Field) (d : NormalizedRow) : jstr :=
  match k with
  | f_id => id d
  | f_date => date d
  | f_store_name => store_name d
  | f_category_name => category_name d
  | f_unit_raw => unit_raw d
  | f_unit_type => unitTypeString (unit_type d)
  | f_pieces_per_kg => numToString (pieces_per_kg d)
  | f_weight_kg => numToString (weight_kg d)
  | f_revenue_rub => numToString (revenue_rub d)
  | f_checks => numToString (checks d)
  | f_pieces => numToString (pieces d)
  | f_week => numToString (week d)
  | f_month => numToString (month d)
  | f_quarter => numToString (quarter d)
  | f_year => numToString (year d)
  | f_atv => numToString (atv d)
  | f_upt => numToString (upt d)
  | f_avg_price_per_kg => numToString (avg_price_per_kg d)
  | f_avg_price_per_piece => numToString (avg_price_per_piece d)
  end.

Inductive PivotValueType :=
| sum_revenue | sum_checks | sum_pieces | sum_weight | calc_atv | calc_upt.

Record Aux := { rev : Q; chk : Q; pcs : Q }.

Definition zeroAux : Aux := {| rev := 0; chk := 0; pcs := 0 |}%Q.

(** The comparator of [colKeys]. *)
Definition colCmp (a b : jstr) : Q :=
  match jsNumber a, jsNumber b with
  | Some x, Some y => (x - y)%Q
  | _, _ => localeCompare a b
  end.

(** [rowKeys.forEach(r => { m[r] = {}; colKeys.forEach(c => m[r][c] = z) })]. *)
Definition initMatrix {A} (rowKeys colKeys : list jstr) (z : A)
    : gmap jstr (gmap jstr A) :=
  fold_left (fun m r => <[r := fold_left (fun mr c => <[c := z]> mr) colKeys ∅]> m)
    rowKeys ∅.

(** One iteration of [filteredData.forEach]. [matrixAux[r][c].rev] throws
    when the row or the cell is missing, and so does [matrix[r][c] = ...]
    when the row is missing; [matrix[r][c] += x] on a missing cell would
    store [NaN], which has no exact-rational value and is taken as the
    failing branch as well. *)
Definition accumulate (pivotRow pivotCol : Field) (pivotVal : PivotValueType)
    (st : gmap jstr (gmap jstr Q) * gmap jstr (gmap jstr Aux)) (d : NormalizedRow)
    : option (gmap jstr (gmap jstr Q) * gmap jstr (gmap jstr Aux)) :=
  let '(matrix, matrixAux) := st in
  let r := fieldString pivotRow d in
  let c := fieldString pivotCol d in
  auxRow ← matrixAux !! r;
  a ← auxRow !! c;
  let a' := {| rev := rev a + revenue_rub d;
               chk := chk a + checks d;
               pcs := pcs a + pieces d |}%Q in
  let matrixAux' := <[r := <[c := a']> auxRow]> matrixAux in
  mrow ← matrix !! r;
  let setCell (v : Q) := <[r := <[c := v]> mrow]> matrix in
  let addCell (x : Q) := (v ← mrow !! c; Some (setCell (v + x)%Q)) in
  matrix' ←
    match pivotVal with
    | sum_revenue => addCell (revenue_rub d)
    | sum_checks => addCell (checks d)
    | sum_pieces => addCell (pieces d)
    | sum_weight => addCell (weight_kg d)
    | calc_atv => Some (setCell (guardedRatio (rev a') (chk a')))
    | calc_upt => Some (setCell (guardedRatio (pcs a') (chk a')))
    end;
  Some (matrix', matrixAux').

Fixpoint foldM {A B} (f : A -> B -> option A) (l : list B) (acc : A) : option A :=
  match l with
  | [] => Some acc
  | x :: l' => acc' ← f acc x; foldM f l' acc'
  end.

Record PivotTable := {
  rowKeys : list jstr;
  colKeys : list jstr;
  matrix : gmap jstr (gmap jstr Q);
  matrixAux : gmap jstr (gmap jstr Aux)
}.

Definition pivotTable (filteredData : list NormalizedRow) (pivotRow pivotCol : Field)
    (pivotVal : PivotValueType) : option PivotTable :=
  let rowKeys := sortBy defaultCmp (uniq (map (fieldString pivotRow) filteredData)) in
  let colKeys := sortBy colCmp (uniq (map (fieldString pivotCol) filteredData)) in
  st ← foldM (accumulate pivotRow pivotCol pivotVal) filteredData
         (initMatrix rowKeys colKeys 0%Q, initMatrix rowKeys colKeys zeroAux);
  Some {| rowKeys := rowKeys; colKeys := colKeys;
          matrix := fst st; matrixAux := snd st |}.

Definition isSumMeasure (v : PivotValueType) : bool :=
  match v with
  | sum_revenue | sum_checks | sum_pieces | sum_weight => true
  | calc_atv | calc_upt => false
  end.

(** One column of the [Итого] computation of row [r] (the [colKeys.map]
    callback of a table row): [pivotTable.matrix[r][c] || 0] and
    [pivotTable.matrixAux[r][c]], whose fields are then read. *)
Definition rowStep (pivotVal : PivotValueType) (pt : PivotTable) (r : jstr)
    (acc : Q * Q * Q * Q) (c : jstr) : option (Q * Q * Q * Q) :=
  let '(tot, rRev, rChk, rPcs) := acc in
  mrow ← matrix pt !! r;
  let val := match mrow !! c with
             | Some v => if Qeq_bool v 0 then 0%Q else v
             | None => 0%Q
             end in
  arow ← matrixAux pt !! r;
  aux ← arow !! c;
  Some (if isSumMeasure pivotVal then (tot + val)%Q else tot,
        (rRev + rev aux)%Q, (rChk + chk aux)%Q, (rPcs + pcs aux)%Q).

(** The [Итого] cell of row [r] (the [rowKeys.map] callback of the table
    body): the columns in order, then [finalTotal]. *)
Definition rowTotal (pivotVal : PivotValueType) (pt : PivotTable) (r : jstr) : option Q :=
  acc ← foldM (rowStep pivotVal pt r) (colKeys pt) (0, 0, 0, 0)%Q;
  let '(tot, rRev, rChk, rPcs) := acc in
  Some (match pivotVal with
        | calc_atv => guardedRatio rRev rChk
        | calc_upt => guardedRatio rPcs rChk
        | _ => tot
        end).


End Pivot.

(** ** Series aggregator ([chartData]) *)

Module Series.

(** [m[k]] on a [Record<string, number>] held as its own properties in
    insertion order; properties inherited from [Object.prototype] are not
    modelled. *)
Fixpoint getKey (m : list (jstr * Q)) (k : jstr) : option Q :=
  match m with
  | [] => None
  | (k', v) :: m' => if jstr_eqb k k' then Some v else getKey m' k
  end.

Fixpoint setKey (m : list (jstr * Q)) (k : jstr) (v : Q) : list (jstr * Q) :=
  match m with
  | [] => [(k, v)]
  | (k', v') :: m' => if jstr_eqb k k' then (k', v) :: m' else (k', v') :: setKey m' k v
  end.

(** [m[k] = (m[k] || 0) + x]. *)
Definition addTo (m : list (jstr * Q)) (k : jstr) (x : Q) : list (jstr * Q) :=
  let old := match getKey m k with
             | Some v => if Qeq_bool v 0 then 0%Q else v
             | None => 0%Q
             end in
  setKey m k (old + x)%Q.

(** Canonical array index: ["0"] or a digit string without leading zero,
    below [2^32 - 1]. *)
Definition isArrayIndex (s : jstr) : bool :=
  match s with
  | [] => false
  | [48] => true
  | 48 :: _ => false
  | _ => forallb isDigit s && (digitsValue 0 s <? 4294967295)
  end.

(** [Object.entries]: array-index keys in ascending numeric order first,
    then the other keys in insertion order. *)
Definition entries (m : list (jstr * Q)) : list (jstr * Q) :=
  sortBy (fun a b => inject_Z (Z.of_N (digitsValue 0 (fst a)) - Z.of_N (digitsValue 0 (fst b))))
    (List.filter (fun kv => isArrayIndex (fst kv)) m)
  ++ List.filter (fun kv => negb (isArrayIndex (fst kv))) m.

Record ChartData := {
  time : list (jstr * Q);
  categories : list (jstr * Q)
}.

Definition chartData (filteredData : list NormalizedRow) : ChartData :=
  let '(timeMap, catMap) :=
    fold_left (fun '(tm, cm) d =>
                 (addTo tm (date d) (revenue_rub d),
                  addTo cm (category_name d) (revenue_rub d)))
      filteredData ([], []) in
  {| time := sortBy (fun a b => localeCompare (fst a) (fst b)) (entries timeMap);
     categories := firstn 10 (sortBy (fun a b => (snd b - snd a)%Q) (entries catMap)) |}.

End Series.

(** ** Vocabulary of the statements *)

(** Sum of a list of numbers. *)
Definition sumQ (l : list Q) : Q := fold_right Qplus 0%Q l.

(** Sum of a field over the rows satisfying [p]. *)
Definition sumWhere (p : NormalizedRow -> bool) (f : NormalizedRow -> Q)
    (rows : list NormalizedRow) : Q :=
  sumQ (map f (List.filter p rows)).

(** [m[r][c]] on a nested map, [None] when the row or the cell is missing. *)
Definition cell {A} (m : gmap jstr (gmap jstr A)) (r c : jstr) : option A :=
  m !! r ≫= (.!! c).

(** Every cell of [rows] x [cols] is present. *)
Definition Shape {A} (rows cols : list jstr) (m : gmap jstr (gmap jstr A)) : Prop :=
  forall r c, r ∈ rows -> c ∈ cols -> is_Some (cell m r c).

Definition auxOf (m : gmap jstr (gmap jstr Pivot.Aux)) (r c : jstr) : Pivot.Aux :=
  default Pivot.zeroAux (cell m r c).

Definition valOf (m : gmap jstr (gmap jstr Q)) (r c : jstr) : Q :=
  default 0%Q (cell m r c).

(** The row field a sum measure accumulates. *)
Definition measureField (v : Pivot.PivotValueType) : NormalizedRow -> Q :=
  match v with
  | Pivot.sum_revenue => revenue_rub
  | Pivot.sum_checks => checks
  | Pivot.sum_pieces => pieces
  | Pivot.sum_weight => weight_kg
  | _ => fun _ => 0%Q
  end.

(** Row [d] falls in pivot cell [(r, c)]. *)
Definition inCell (pivotRow pivotCol : Pivot.Field) (r c : jstr) (d : NormalizedRow) : bool :=
  bool_decide (Pivot.fieldString pivotRow d = r) && bool_decide (Pivot.fieldString pivotCol d = c).

(** A normalised row with the given dimensions and measures (derived ratios
    as the normaliser computes them), for the concrete instances below. *)
Definition mkRow (dateStr store cat : string) (m : Q) (rev chk pcs wgt : Q) : NormalizedRow :=
  {| id := []; date := js dateStr; store_name := js store; category_name := js cat;
     unit_raw := []; unit_type := Pcs; pieces_per_kg := 0; weight_kg := wgt;
     revenue_rub := rev; checks := chk; pieces := pcs; week := 0; month := m;
     quarter := 0; year := 2025; atv := guardedRatio rev chk; upt := guardedRatio pcs chk;
     avg_price_per_kg := guardedRatio rev wgt; avg_price_per_piece := guardedRatio rev pcs |}%Q.

(** Sum of field [f] over the rows whose [pivotRow] value is [r]. *)
Definition rowSum (pivotRow : Pivot.Field) (r : jstr) (f : NormalizedRow -> Q)
    (rows : list NormalizedRow) : Q :=
  sumWhere (fun d => bool_decide (Pivot.fieldString pivotRow d = r)) f rows.


(** A raw row whose checks field carries a minus sign, as [parseNum] reads
    it: revenue 100, checks -5, category "A". *)
Definition negChecksRow : NormalizedRow :=
  normalizeRow 0 (obj [("category_name", JStr (js "A")); ("revenue_rub", JNum 100);
                       ("checks", JStr (js "-5"))]).

(** The total of row [r] of a pivot: the sum of the measure over the rows
    of [r] for a sum measure, and the guarded ratio of the row's sums for
    [calc_atv] and [calc_upt]. *)
Definition rowTotalSpec (v : Pivot.PivotValueType) (pivotRow : Pivot.Field) (r : jstr)
    (rows : list NormalizedRow) : Q :=
  let inRow d := bool_decide (Pivot.fieldString pivotRow d = r) in
  match v with
  | Pivot.calc_atv => guardedRatio (sumWhere inRow revenue_rub rows) (sumWhere inRow checks rows)
  | Pivot.calc_upt => guardedRatio (sumWhere inRow pieces rows) (sumWhere inRow checks rows)
  | _ => sumWhere inRow (measureField v) rows
  end.


(** Lexicographic (code-unit) order [a <= b] on strings. *)
Definition lexLe (a b : jstr) : Prop := jstr_compare a b <> Gt.

(** The filter predicate as the specification states it: dates compared
    lexicographically, an empty bound or list imposing nothing. *)
Definition specPass (f : Filter.Filters) (d : NormalizedRow) : Prop :=
  (Filter.dateFrom f = [] \/ jstr_compare (date d) (Filter.dateFrom f) <> Lt)
  /\ (Filter.dateTo f = [] \/ jstr_compare (date d) (Filter.dateTo f) <> Gt)
  /\ (Filter.stores f = [] \/ store_name d ∈ Filter.stores f)
  /\ (Filter.categories f = [] \/ category_name d ∈ Filter.categories f)
  /\ (Filter.unitTypes f = [] \/ unitTypeString (unit_type d) ∈ Filter.unitTypes f).

Global Instance specPass_dec f d : Decision (specPass f d).
Proof. unfold specPass. apply _. Defined.

(** The initial filter state [{dateFrom: '', dateTo: '', stores: [], ...}]. *)
Definition emptyFilters : Filter.Filters :=
  {| Filter.dateFrom := []; Filter.dateTo := []; Filter.stores := [];
     Filter.categories := []; Filter.unitTypes := [] |}.

(** The machine-vocabulary keys that head an alias chain of the normaliser. *)
Definition aliasHeads : list jstr :=
  map js ["revenue_rub"; "checks"; "pieces"; "weight_kg"; "date"; "store_name";
          "category_name"; "unit_raw"]%string.

(** Two raw rows that agree on every property but [k]. *)
Definition sameExcept (k : jstr) (r r' : jsval) : Prop :=
  forall key, key <> k -> prop r key = prop r' key.



(** ** Side panel, quick filters and export *)

(** [uniqueStores] and [uniqueCats]: [Array.from(new Set(...)).sort()]. *)
Definition uniqueStores (data : list NormalizedRow) : list jstr :=
  sortBy defaultCmp (uniq (map store_name data)).

Definition uniqueCats (data : list NormalizedRow) : list jstr :=
  sortBy defaultCmp (uniq (map category_name data)).

(** [{ ...f, stores: next }] and [{ ...f, categories: next }]. *)
Definition setStores (f : Filter.Filters) (next : list jstr) : Filter.Filters :=
  {| Filter.dateFrom := Filter.dateFrom f; Filter.dateTo := Filter.dateTo f;
     Filter.stores := next; Filter.categories := Filter.categories f;
     Filter.unitTypes := Filter.unitTypes f |}.

Definition setCategories (f : Filter.Filters) (next : list jstr) : Filter.Filters :=
  {| Filter.dateFrom := Filter.dateFrom f; Filter.dateTo := Filter.dateTo f;
     Filter.stores := Filter.stores f; Filter.categories := next;
     Filter.unitTypes := Filter.unitTypes f |}.

(** The [next] list of a store or category checkbox:
    [e.target.checked ? [...xs, s] : xs.filter(x => x !== s)]. *)
Definition toggle (checked : bool) (s : jstr) (xs : list jstr) : list jstr :=
  if checked then xs ++ [s] else List.filter (fun x => negb (jstr_eqb x s)) xs.

Definition toggleStore (checked : bool) (s : jstr) (f : Filter.Filters) : Filter.Filters :=
  setStores f (toggle checked s (Filter.stores f)).

Definition toggleCategory (checked : bool) (c : jstr) (f : Filter.Filters) : Filter.Filters :=
  setCategories f (toggle checked c (Filter.categories f)).

(** [s.padStart(2, '0')]. *)
Definition padStart2 (s : jstr) : jstr := repeat 48 (2 - length s)%nat ++ s.

(** A month button ([m] in [7..12]): [{ ...f, dateFrom: `2025-${mm}-01`,
    dateTo: `2025-${mm}-31` }] with [mm = String(m).padStart(2, '0')]. *)
Definition quickMonth (m : N) (f : Filter.Filters) : Filter.Filters :=
  let mm := padStart2 (decimalN m) in
  {| Filter.dateFrom := js "2025-" ++ mm ++ js "-01";
     Filter.dateTo := js "2025-" ++ mm ++ js "-31";
     Filter.stores := Filter.stores f; Filter.categories := Filter.categories f;
     Filter.unitTypes := Filter.unitTypes f |}.

(** The header line of [exportCSV]: [[...].join(',')]. *)
Definition csvHeaders : jstr :=
  jsToString (JArr (map (fun s => JStr (js s))
    ["Дата"; "Магазин"; "Категория"; "Выручка"; "Чеки"; "Штуки"; "Вес"]%string)).

(** One data line: [[r.date, r.store_name, ..., r.weight_kg].join(',')]. *)
Definition csvRow (r : NormalizedRow) : jstr :=
  jsToString (JArr [JStr (date r); JStr (store_name r); JStr (category_name r);
                    JNum (revenue_rub r); JNum (checks r); JNum (pieces r);
                    JNum (weight_kg r)]).

(** [xs.join(sep)] for a one-unit separator. *)
Fixpoint joinWith (sep : N) (xs : list jstr) : jstr :=
  match xs with
  | [] => []
  | [x] => x
  | x :: xs' => x ++ sep :: joinWith sep xs'
  end.

(** The text of the blob [exportCSV] downloads, [None] when it returns
    early on an empty [filteredData]: the byte order mark, the header line
    and the data lines joined by ['\n']. *)
Definition exportCSV (filteredData : list NormalizedRow) : option jstr :=
  if Nat.eqb (length filteredData) 0 then None
  else Some (65279 :: csvHeaders ++ 10 :: joinWith 10 (map csvRow filteredData)).

(** ** Vocabulary of the further statements *)

(** [s.split(sep)] for a one-unit separator. *)
Fixpoint splitOn (sep : N) (s : jstr) : list jstr :=
  match s with
  | [] => [[]]
  | c :: s' =>
      if N.eqb c sep then [] :: splitOn sep s'
      else match splitOn sep s' with
           | [] => [[c]]
           | w :: ws => (c :: w) :: ws
           end
  end.





(** Strict code-unit order [a < b] on strings. *)
Definition lexLt (a b : jstr) : Prop := jstr_compare a b = Lt.

(** The filter state with both date bounds empty. *)
Definition clearDates (f : Filter.Filters) : Filter.Filters :=
  {| Filter.dateFrom := []; Filter.dateTo := []; Filter.stores := Filter.stores f;
     Filter.categories := Filter.categories f; Filter.unitTypes := Filter.unitTypes f |}.

(** The JSON an n8n node emits for an item: [{ json: item }]. *)
Definition n8nWrap (item : jsval) : jsval := JObj [(js "json", item)].

(** * Lemmas *)

Local Open Scope Q_scope.

(** ** Sample evaluations *)

Example parseNum_ex1 : Qeq_bool (parseNum (JStr (js "1 234,50"))) (1234.5) = true.
Proof. vm_compute. reflexivity. Qed.
Example parseNum_ex2 : Qeq_bool (parseNum (JStr (js "12кг"))) 12 = true.
Proof. vm_compute. reflexivity. Qed.
Example numToString_ex : numToString (3/2)%Q = js "1.5".
Proof. vm_compute. reflexivity. Qed.
Example norm_ex1 :
  option_map unit_type (normalizeItem 0 (obj [("unit_raw", JStr (js "0.5 кг"))])) = Some Kg.
Proof. vm_compute. reflexivity. Qed.
Example norm_ex2 :
  option_map store_name (normalizeItem 0 (obj [("store_name", JStr (js " "))])) = Some [].
Proof. vm_compute. reflexivity. Qed.

Lemma jstr_eqb_eq (a b : jstr) : jstr_eqb a b = true <-> a = b.
Proof.
  revert b; induction a as [|x a IH]; intros [|y b]; simpl;
    try (split; congruence).
  rewrite andb_true_iff, N.eqb_eq, IH. split; [intros [-> ->]|intros [=]]; auto.
Qed.

Lemma arr_includes_spec (xs : list jstr) (x : jstr) :
  arr_includes xs x = true <-> x ∈ xs.
Proof.
  unfold arr_includes. rewrite existsb_exists, list_elem_of_In.
  split.
  - intros (y & Hy & Heq). apply jstr_eqb_eq in Heq. subst. done.
  - intros Hx. exists x. split; [done|]. by apply jstr_eqb_eq.
Qed.

Lemma uniq_aux (xs acc : list jstr) :
  NoDup acc ->
  NoDup (fold_left (fun acc x => if arr_includes acc x then acc else acc ++ [x]) xs acc)
  /\ (forall y, y ∈ fold_left (fun acc x => if arr_includes acc x then acc else acc ++ [x]) xs acc
                <-> y ∈ acc \/ y ∈ xs).
Proof.
  revert acc; induction xs as [|x xs IH]; intros acc Hnd; simpl.
  - split; [done|]. intros y. set_solver.
  - destruct (arr_includes acc x) eqn:Hin.
    + apply arr_includes_spec in Hin.
      destruct (IH acc Hnd) as [H1 H2]. split; [done|].
      intros y. rewrite H2. set_solver.
    + assert (Hx : x ∉ acc) by (rewrite <- arr_includes_spec; congruence).
      assert (Hnd' : NoDup (acc ++ [x])).
      { apply NoDup_app. split; [done|]. split; [set_solver|]. apply NoDup_singleton. }
      destruct (IH _ Hnd') as [H1 H2]. split; [done|].
      intros y. rewrite H2. set_solver.
Qed.

Lemma uniq_NoDup (xs : list jstr) : NoDup (uniq xs).
Proof. apply (uniq_aux xs []). constructor. Qed.

Lemma elem_of_uniq (xs : list jstr) y : y ∈ uniq xs <-> y ∈ xs.
Proof. unfold uniq. rewrite (proj2 (uniq_aux xs [] ltac:(constructor)) y). set_solver. Qed.

Lemma insertBy_perm {A} (cmp : A -> A -> Q) x l : insertBy cmp x l ≡ₚ x :: l.
Proof.
  induction l as [|y l IH]; simpl; [done|].
  destruct (Qltb0 (cmp x y)); [done|].
  rewrite IH. apply Permutation_swap.
Qed.

Lemma sortBy_perm {A} (cmp : A -> A -> Q) l : sortBy cmp l ≡ₚ l.
Proof.
  unfold sortBy.
  assert (H : forall acc, fold_left (fun acc x => insertBy cmp x acc) l acc ≡ₚ acc ++ l).
  { induction l as [|x l IH]; intros acc; simpl; [by rewrite app_nil_r|].
    rewrite IH, insertBy_perm. simpl. apply Permutation_middle. }
  apply H.
Qed.

Lemma sumQ_map_plus {A} (g h : A -> Q) (l : list A) :
  sumQ (map (fun x => g x + h x) l) == sumQ (map g l) + sumQ (map h l).
Proof. induction l as [|x l IH]; simpl; [ring|]. rewrite IH. ring. Qed.

Lemma sumQ_map_ext {A} (g h : A -> Q) (l : list A) :
  (forall x, x ∈ l -> g x == h x) -> sumQ (map g l) == sumQ (map h l).
Proof.
  induction l as [|x l IH]; intros H; simpl; [reflexivity|].
  rewrite (H x) by constructor. rewrite IH; [reflexivity|].
  intros y Hy. apply H. by constructor.
Qed.

Lemma sumQ_map_zero {A} (l : list A) : sumQ (map (fun _ => 0) l) == 0.
Proof. induction l as [|x l IH]; simpl; [reflexivity|]. rewrite IH. ring. Qed.

Lemma sumQ_indicator_notin (cs : list jstr) y x :
  y ∉ cs -> sumQ (map (fun c => if bool_decide (y = c) then x else 0) cs) == 0.
Proof.
  intros Hy. rewrite (sumQ_map_ext _ (fun _ => 0)); [apply sumQ_map_zero|].
  intros c Hc. case_bool_decide; [subst; contradiction|reflexivity].
Qed.

Lemma sumQ_indicator (cs : list jstr) y x :
  NoDup cs -> y ∈ cs -> sumQ (map (fun c => if bool_decide (y = c) then x else 0) cs) == x.
Proof.
  induction cs as [|c cs IH]; intros Hnd Hy; [set_solver|].
  apply NoDup_cons in Hnd as [Hc Hnd]. simpl.
  case_bool_decide as E.
  - subst. rewrite sumQ_indicator_notin by done. ring.
  - rewrite IH by set_solver. ring.
Qed.

Lemma sumWhere_cons p f d rows :
  sumWhere p f (d :: rows) == (if p d then f d else 0) + sumWhere p f rows.
Proof. unfold sumWhere. simpl. destruct (p d); simpl; ring. Qed.

Lemma sumWhere_nil p f : sumWhere p f [] = 0.
Proof. reflexivity. Qed.

(** Summing the per-key sums over a duplicate-free list of keys that
    contains the key of every counted row gives the overall sum. *)
Lemma sumWhere_partition (p : NormalizedRow -> bool) (k : NormalizedRow -> jstr)
    (f : NormalizedRow -> Q) (cs : list jstr) (rows : list NormalizedRow) :
  NoDup cs -> (forall d, d ∈ rows -> p d = true -> k d ∈ cs) ->
  sumQ (map (fun c => sumWhere (fun d => p d && bool_decide (k d = c)) f rows) cs)
  == sumWhere p f rows.
Proof.
  intros Hnd. induction rows as [|d rows IH]; intros Hk.
  - rewrite sumWhere_nil. apply sumQ_map_zero.
  - rewrite (sumQ_map_ext _ (fun c => (if p d && bool_decide (k d = c) then f d else 0)
                                     + sumWhere (fun d => p d && bool_decide (k d = c)) f rows))
      by (intros c _; apply sumWhere_cons).
    rewrite sumQ_map_plus, IH by (intros; apply Hk; [set_solver|done]).
    rewrite sumWhere_cons.
    destruct (p d) eqn:Hp; simpl.
    + rewrite sumQ_indicator; [reflexivity|done|]. apply Hk; [set_solver|done].
    + rewrite sumQ_map_zero. ring.
Qed.

Lemma fold_insert_lookup {V} (ks : list jstr) (v : V) (m : gmap jstr V) k :
  fold_left (fun m k => <[k := v]> m) ks m !! k
  = if bool_decide (k ∈ ks) then Some v else m !! k.
Proof.
  revert m; induction ks as [|k' ks IH]; intros m; cbn [fold_left].
  - rewrite bool_decide_false; [done|]. apply not_elem_of_nil.
  - rewrite IH. case_bool_decide as H1; case_bool_decide as H2; try done.
    + exfalso. apply H2. by apply elem_of_cons; right.
    + apply elem_of_cons in H2 as [->|H2]; [|done]. by rewrite lookup_insert_eq.
    + rewrite lookup_insert_ne; [done|]. intros ->. apply H2. by apply elem_of_cons; left.
Qed.

Lemma init_cell {A} (R C : list jstr) (z : A) r c :
  r ∈ R -> c ∈ C -> cell (Pivot.initMatrix R C z) r c = Some z.
Proof.
  intros Hr Hc. unfold cell, Pivot.initMatrix.
  rewrite fold_insert_lookup, bool_decide_true by done. simpl.
  rewrite fold_insert_lookup, bool_decide_true by done. done.
Qed.

Lemma init_Shape {A} (R C : list jstr) (z : A) : Shape R C (Pivot.initMatrix R C z).
Proof. intros r c Hr Hc. rewrite init_cell by done. eauto. Qed.

Lemma cell_Some {A} (m : gmap jstr (gmap jstr A)) r c x :
  cell m r c = Some x -> exists row, m !! r = Some row /\ row !! c = Some x.
Proof. unfold cell. intros H. apply bind_Some in H. done. Qed.

Lemma cell_set {A} (m : gmap jstr (gmap jstr A)) r c row x r' c' :
  m !! r = Some row ->
  cell (<[r := <[c := x]> row]> m) r' c'
  = if bool_decide (r = r' /\ c = c') then Some x else cell m r' c'.
Proof.
  intros Hrow. unfold cell. destruct (decide (r = r')) as [<-|Hr].
  - rewrite lookup_insert_eq, Hrow. simpl. destruct (decide (c = c')) as [<-|Hc].
    + rewrite lookup_insert_eq, bool_decide_true; done.
    + rewrite lookup_insert_ne, bool_decide_false by naive_solver. done.
  - rewrite lookup_insert_ne, bool_decide_false by naive_solver. done.
Qed.

Lemma Shape_set {A} (R C : list jstr) (m : gmap jstr (gmap jstr A)) r c row x :
  Shape R C m -> m !! r = Some row -> Shape R C (<[r := <[c := x]> row]> m).
Proof.
  intros Hs Hrow r' c' Hr' Hc'. rewrite (cell_set _ _ _ row) by done.
  case_bool_decide; [eauto|auto].
Qed.

Section Accumulate.

Variables (pivotRow pivotCol : Pivot.Field) (pivotVal : Pivot.PivotValueType).
Variables (R C : list jstr).

Let kr := Pivot.fieldString pivotRow.
Let kc := Pivot.fieldString pivotCol.

Lemma inCell_true r c d : inCell pivotRow pivotCol r c d = true <-> kr d = r /\ kc d = c.
Proof. unfold inCell. rewrite andb_true_iff, !bool_decide_eq_true. done. Qed.

Lemma accumulate_step (m : gmap jstr (gmap jstr Q)) (a : gmap jstr (gmap jstr Pivot.Aux)) d :
  Shape R C m -> Shape R C a -> kr d ∈ R -> kc d ∈ C ->
  exists m' a', Pivot.accumulate pivotRow pivotCol pivotVal (m, a) d = Some (m', a')
    /\ Shape R C m' /\ Shape R C a'
    /\ forall r c,
         auxOf a' r c = (if inCell pivotRow pivotCol r c d then
                           {| Pivot.rev := Pivot.rev (auxOf a r c) + revenue_rub d;
                              Pivot.chk := Pivot.chk (auxOf a r c) + checks d;
                              Pivot.pcs := Pivot.pcs (auxOf a r c) + pieces d |}
                         else auxOf a r c)
         /\ (Pivot.isSumMeasure pivotVal = true ->
             valOf m' r c = if inCell pivotRow pivotCol r c d
                            then valOf m r c + measureField pivotVal d else valOf m r c).
Proof.
  intros Hm Ha Hr Hc.
  destruct (Ha _ _ Hr Hc) as [x Hx]. destruct (cell_Some _ _ _ _ Hx) as (arow & Harow & Hx').
  destruct (Hm _ _ Hr Hc) as [v Hv]. destruct (cell_Some _ _ _ _ Hv) as (mrow & Hmrow & Hv').
  unfold Pivot.accumulate. fold kr kc. rewrite Harow. simpl. rewrite Hx'. simpl.
  rewrite Hmrow. simpl.
  set (x' := {| Pivot.rev := Pivot.rev x + revenue_rub d;
                Pivot.chk := Pivot.chk x + checks d;
                Pivot.pcs := Pivot.pcs x + pieces d |}).
  assert (Haux : forall r c, auxOf (<[kr d := <[kc d := x']> arow]> a) r c
            = (if inCell pivotRow pivotCol r c d then
                 {| Pivot.rev := Pivot.rev (auxOf a r c) + revenue_rub d;
                    Pivot.chk := Pivot.chk (auxOf a r c) + checks d;
                    Pivot.pcs := Pivot.pcs (auxOf a r c) + pieces d |}
               else auxOf a r c)).
  { intros r c. unfold auxOf. rewrite (cell_set _ _ _ arow) by done.
    destruct (inCell pivotRow pivotCol r c d) eqn:E.
    - apply inCell_true in E as [<- <-]. rewrite bool_decide_true by done. rewrite Hx. done.
    - rewrite bool_decide_false; [done|]. intros [<- <-].
      assert (inCell pivotRow pivotCol (kr d) (kc d) d = true) by (by apply inCell_true).
      congruence. }
  assert (Hval : forall y r c, valOf (<[kr d := <[kc d := v + y]> mrow]> m) r c
            = if inCell pivotRow pivotCol r c d then valOf m r c + y else valOf m r c).
  { intros y r c. unfold valOf. rewrite (cell_set _ _ _ mrow) by done.
    destruct (inCell pivotRow pivotCol r c d) eqn:E.
    - apply inCell_true in E as [<- <-]. rewrite bool_decide_true by done. rewrite Hv. done.
    - rewrite bool_decide_false; [done|]. intros [<- <-].
      assert (inCell pivotRow pivotCol (kr d) (kc d) d = true) by (by apply inCell_true).
      congruence. }
  destruct pivotVal; simpl; try rewrite Hv'; simpl; eexists _, _;
    (split; [reflexivity|]);
    (split; [apply Shape_set; done|]); (split; [apply Shape_set; done|]);
    intros r c; split; try apply Haux; intros Hs; try discriminate; apply Hval.
Qed.

Lemma accumulate_fold (rows : list NormalizedRow) m a :
  Shape R C m -> Shape R C a -> (forall d, d ∈ rows -> kr d ∈ R /\ kc d ∈ C) ->
  exists m' a', Pivot.foldM (Pivot.accumulate pivotRow pivotCol pivotVal) rows (m, a)
                = Some (m', a')
    /\ Shape R C m' /\ Shape R C a'
    /\ forall r c,
         Pivot.rev (auxOf a' r c)
           == Pivot.rev (auxOf a r c) + sumWhere (inCell pivotRow pivotCol r c) revenue_rub rows
         /\ Pivot.chk (auxOf a' r c)
           == Pivot.chk (auxOf a r c) + sumWhere (inCell pivotRow pivotCol r c) checks rows
         /\ Pivot.pcs (auxOf a' r c)
           == Pivot.pcs (auxOf a r c) + sumWhere (inCell pivotRow pivotCol r c) pieces rows
         /\ (Pivot.isSumMeasure pivotVal = true ->
             valOf m' r c
               == valOf m r c + sumWhere (inCell pivotRow pivotCol r c) (measureField pivotVal) rows).
Proof.
  revert m a. induction rows as [|d rows IH]; intros m a Hm Ha Hk.
  - exists m, a. split; [done|]. split; [done|]. split; [done|].
    intros r c. rewrite !sumWhere_nil. repeat split; intros; ring.
  - destruct (Hk d) as [Hr Hc]; [by constructor|].
    destruct (accumulate_step m a d Hm Ha Hr Hc) as (m1 & a1 & Hst & Hm1 & Ha1 & Heq).
    destruct (IH m1 a1 Hm1 Ha1) as (m' & a' & Hf & Hm' & Ha' & Heq');
      [intros d' Hd'; apply Hk; by constructor|].
    exists m', a'. cbn [Pivot.foldM]. rewrite Hst. split; [exact Hf|]. split; [done|]. split; [done|].
    intros r c. destruct (Heq r c) as [Haux Hval]. destruct (Heq' r c) as (H1 & H2 & H3 & H4).
    rewrite !sumWhere_cons. rewrite Haux in H1, H2, H3.
    destruct (inCell pivotRow pivotCol r c d); simpl in H1, H2, H3.
    + split; [rewrite H1; ring|]. split; [rewrite H2; ring|]. split; [rewrite H3; ring|].
      intros Hs. rewrite H4, Hval by done. ring.
    + split; [rewrite H1; ring|]. split; [rewrite H2; ring|]. split; [rewrite H3; ring|].
      intros Hs. rewrite H4, Hval by done. ring.
Qed.

End Accumulate.

Lemma elem_of_rowKeys rows k r :
  r ∈ sortBy defaultCmp (uniq (map (Pivot.fieldString k) rows))
  <-> exists d, d ∈ rows /\ Pivot.fieldString k d = r.
Proof.
  rewrite (sortBy_perm _ _), elem_of_uniq, list_elem_of_In, in_map_iff.
  setoid_rewrite list_elem_of_In. naive_solver.
Qed.

Lemma elem_of_colKeys rows k c :
  c ∈ sortBy Pivot.colCmp (uniq (map (Pivot.fieldString k) rows))
  <-> exists d, d ∈ rows /\ Pivot.fieldString k d = c.
Proof.
  rewrite (sortBy_perm _ _), elem_of_uniq, list_elem_of_In, in_map_iff.
  setoid_rewrite list_elem_of_In. naive_solver.
Qed.

Lemma NoDup_sorted_uniq (cmp : jstr -> jstr -> Q) xs : NoDup (sortBy cmp (uniq xs)).
Proof. rewrite (sortBy_perm _ _). apply uniq_NoDup. Qed.

(** What the pivot engine builds: it never fails, its key lists are the
    distinct values of the two dimensions, every cell of the grid exists,
    and each cell holds the sums of its rows. *)
Lemma pivotTable_spec rows pivotRow pivotCol pivotVal :
  exists pt, Pivot.pivotTable rows pivotRow pivotCol pivotVal = Some pt
    /\ NoDup (Pivot.rowKeys pt) /\ NoDup (Pivot.colKeys pt)
    /\ (forall r, r ∈ Pivot.rowKeys pt <-> exists d, d ∈ rows /\ Pivot.fieldString pivotRow d = r)
    /\ (forall c, c ∈ Pivot.colKeys pt <-> exists d, d ∈ rows /\ Pivot.fieldString pivotCol d = c)
    /\ Shape (Pivot.rowKeys pt) (Pivot.colKeys pt) (Pivot.matrix pt)
    /\ Shape (Pivot.rowKeys pt) (Pivot.colKeys pt) (Pivot.matrixAux pt)
    /\ forall r c,
         Pivot.rev (auxOf (Pivot.matrixAux pt) r c)
           == sumWhere (inCell pivotRow pivotCol r c) revenue_rub rows
         /\ Pivot.chk (auxOf (Pivot.matrixAux pt) r c)
           == sumWhere (inCell pivotRow pivotCol r c) checks rows
         /\ Pivot.pcs (auxOf (Pivot.matrixAux pt) r c)
           == sumWhere (inCell pivotRow pivotCol r c) pieces rows
         /\ (Pivot.isSumMeasure pivotVal = true ->
             valOf (Pivot.matrix pt) r c
               == sumWhere (inCell pivotRow pivotCol r c) (measureField pivotVal) rows).
Proof.
  set (R := sortBy defaultCmp (uniq (map (Pivot.fieldString pivotRow) rows))).
  set (C := sortBy Pivot.colCmp (uniq (map (Pivot.fieldString pivotCol) rows))).
  assert (Hk : forall d, d ∈ rows -> Pivot.fieldString pivotRow d ∈ R
                                   /\ Pivot.fieldString pivotCol d ∈ C).
  { intros d Hd. split; [apply elem_of_rowKeys|apply elem_of_colKeys]; eauto. }
  destruct (accumulate_fold pivotRow pivotCol pivotVal R C rows
              (Pivot.initMatrix R C 0) (Pivot.initMatrix R C Pivot.zeroAux)
              (init_Shape _ _ _) (init_Shape _ _ _) Hk)
    as (m & a & Hf & Hm & Ha & Heq).
  unfold Pivot.pivotTable. fold R C. rewrite Hf. simpl.
  eexists. split; [reflexivity|]. simpl.
  split; [apply NoDup_sorted_uniq|]. split; [apply NoDup_sorted_uniq|].
  split; [apply elem_of_rowKeys|]. split; [apply elem_of_colKeys|].
  split; [done|]. split; [done|].
  intros r c. destruct (Heq r c) as (H1 & H2 & H3 & H4).
  assert (Hz : auxOf (Pivot.initMatrix R C Pivot.zeroAux) r c = Pivot.zeroAux
               /\ valOf (Pivot.initMatrix R C 0) r c == 0).
  { unfold auxOf, valOf, cell, Pivot.initMatrix.
    rewrite !fold_insert_lookup.
    case_bool_decide; simpl; [|split; reflexivity].
    rewrite !fold_insert_lookup. case_bool_decide; simpl; split; reflexivity. }
  destruct Hz as [Hz1 Hz2]. rewrite Hz1 in H1, H2, H3. simpl in H1, H2, H3.
  split; [rewrite H1; ring|]. split; [rewrite H2; ring|]. split; [rewrite H3; ring|].
  intros Hs. rewrite H4, Hz2 by done. ring.
Qed.

Lemma guardedRatio_compat x x' y y' :
  x == x' -> y == y' -> guardedRatio x y == guardedRatio x' y'.
Proof.
  intros Hx Hy. unfold guardedRatio, Qgtb0.
  assert (E : Qle_bool y 0 = Qle_bool y' 0).
  { apply eq_true_iff_eq. rewrite !Qle_bool_iff, Hy. done. }
  rewrite E. destruct (Qle_bool y' 0); simpl; [reflexivity|]. rewrite Hx, Hy. reflexivity.
Qed.

Lemma rowStep_some v pt r (t0 r0 c0 p0 : Q) c x y :
  cell (Pivot.matrix pt) r c = Some x -> cell (Pivot.matrixAux pt) r c = Some y ->
  Pivot.rowStep v pt r (t0, r0, c0, p0) c
  = Some (if Pivot.isSumMeasure v then t0 + (if Qeq_bool x 0 then 0 else x) else t0,
          r0 + Pivot.rev y, c0 + Pivot.chk y, p0 + Pivot.pcs y).
Proof.
  intros Hx Hy.
  destruct (cell_Some _ _ _ _ Hx) as (mrow & Hmrow & Hx').
  destruct (cell_Some _ _ _ _ Hy) as (arow & Harow & Hy').
  unfold Pivot.rowStep. rewrite Hmrow. cbn [mbind option_bind].
  rewrite Hx', Harow. cbn [mbind option_bind]. rewrite Hy'. reflexivity.
Qed.

Lemma rowStep_fold v pt r (cs : list jstr) (t0 r0 c0 p0 : Q) :
  (forall c, c ∈ cs -> is_Some (cell (Pivot.matrix pt) r c)
                       /\ is_Some (cell (Pivot.matrixAux pt) r c)) ->
  exists t rv ck pc, Pivot.foldM (Pivot.rowStep v pt r) cs (t0, r0, c0, p0) = Some (t, rv, ck, pc)
    /\ t == t0 + (if Pivot.isSumMeasure v then sumQ (map (valOf (Pivot.matrix pt) r) cs) else 0)
    /\ rv == r0 + sumQ (map (fun c => Pivot.rev (auxOf (Pivot.matrixAux pt) r c)) cs)
    /\ ck == c0 + sumQ (map (fun c => Pivot.chk (auxOf (Pivot.matrixAux pt) r c)) cs)
    /\ pc == p0 + sumQ (map (fun c => Pivot.pcs (auxOf (Pivot.matrixAux pt) r c)) cs).
Proof.
  revert t0 r0 c0 p0. induction cs as [|c cs IH]; intros t0 r0 c0 p0 Hc.
  - exists t0, r0, c0, p0. simpl. split; [done|].
    destruct (Pivot.isSumMeasure v); repeat split; ring.
  - destruct (Hc c) as [[x Hx] [y Hy]]; [by constructor|].
    cbn [Pivot.foldM]. rewrite (rowStep_some _ _ _ _ _ _ _ _ _ _ Hx Hy).
    cbn [mbind option_bind].
    set (val := if Qeq_bool x 0 then 0 else x).
    assert (Hval : val == valOf (Pivot.matrix pt) r c).
    { unfold val, valOf. rewrite Hx. simpl.
      destruct (Qeq_bool x 0) eqn:E; [|reflexivity].
      apply Qeq_bool_iff in E. rewrite E. reflexivity. }
    assert (Haux : auxOf (Pivot.matrixAux pt) r c = y) by (unfold auxOf; rewrite Hy; done).
    edestruct IH as (t & rv & ck & pc & Hf & H1 & H2 & H3 & H4);
      [intros c' Hc'; apply Hc; by constructor|].
    exists t, rv, ck, pc. split; [exact Hf|].
    split; [|split; [|split]].
    + rewrite H1. destruct (Pivot.isSumMeasure v); simpl; [rewrite Hval|]; ring.
    + rewrite H2. simpl. rewrite Haux. ring.
    + rewrite H3. simpl. rewrite Haux. ring.
    + rewrite H4. simpl. rewrite Haux. ring.
Qed.

Lemma rowTotal_spec rows pivotRow pivotCol v pt r :
  Pivot.pivotTable rows pivotRow pivotCol v = Some pt -> r ∈ Pivot.rowKeys pt ->
  exists t, Pivot.rowTotal v pt r = Some t /\ t == rowTotalSpec v pivotRow r rows.
Proof.
  intros Hpt Hr.
  destruct (pivotTable_spec rows pivotRow pivotCol v)
    as (pt' & Hpt' & HndR & HndC & HR & HC & Hm & Ha & Hcells).
  rewrite Hpt in Hpt'. injection Hpt' as <-.
  destruct (rowStep_fold v pt r (Pivot.colKeys pt) 0 0 0 0)
    as (t & rv & ck & pc & Hf & H1 & H2 & H3 & H4).
  { intros c Hc. split; [apply Hm|apply Ha]; done. }
  unfold Pivot.rowTotal. rewrite Hf. simpl. eexists. split; [reflexivity|].
  set (inRow := fun d => bool_decide (Pivot.fieldString pivotRow d = r)).
  assert (Hpart : forall f : NormalizedRow -> Q,
             sumQ (map (fun c => sumWhere (inCell pivotRow pivotCol r c) f rows) (Pivot.colKeys pt))
             == sumWhere inRow f rows).
  { intros f. apply (sumWhere_partition inRow (Pivot.fieldString pivotCol)); [done|].
    intros d Hd _. apply HC. eauto. }
  assert (Hrv : rv == sumWhere inRow revenue_rub rows).
  { rewrite H2, <- Hpart. rewrite (sumQ_map_ext _ _ _ (fun c _ => proj1 (Hcells r c))). ring. }
  assert (Hck : ck == sumWhere inRow checks rows).
  { rewrite H3, <- Hpart. rewrite (sumQ_map_ext _ _ _ (fun c _ => proj1 (proj2 (Hcells r c)))). ring. }
  assert (Hpc : pc == sumWhere inRow pieces rows).
  { rewrite H4, <- Hpart.
    rewrite (sumQ_map_ext _ _ _ (fun c _ => proj1 (proj2 (proj2 (Hcells r c))))). ring. }
  unfold rowTotalSpec. fold inRow.
  destruct v; simpl in H1 |- *;
    try (apply guardedRatio_compat; assumption).
  all: rewrite H1, <- Hpart.
  all: rewrite (sumQ_map_ext _ _ _ (fun c _ => proj2 (proj2 (proj2 (Hcells r c))) eq_refl)).
  all: cbn [measureField]; ring.
Qed.

Lemma kpi_total_fold (rows : list NormalizedRow) (acc : KPI.Total) :
  KPI.rev (fold_left KPI.addRow rows acc) == KPI.rev acc + sumQ (map revenue_rub rows)
  /\ KPI.chk (fold_left KPI.addRow rows acc) == KPI.chk acc + sumQ (map checks rows)
  /\ KPI.pcs (fold_left KPI.addRow rows acc) == KPI.pcs acc + sumQ (map pieces rows)
  /\ KPI.wgt (fold_left KPI.addRow rows acc) == KPI.wgt acc + sumQ (map weight_kg rows).
Proof.
  revert acc. induction rows as [|d rows IH]; intros acc; simpl.
  - repeat split; ring.
  - destruct (IH (KPI.addRow acc d)) as (H1 & H2 & H3 & H4). simpl in *.
    rewrite H1, H2, H3, H4. repeat split; ring.
Qed.

Lemma kpi_total rows :
  KPI.rev (KPI.total rows) == sumQ (map revenue_rub rows)
  /\ KPI.chk (KPI.total rows) == sumQ (map checks rows)
  /\ KPI.pcs (KPI.total rows) == sumQ (map pieces rows)
  /\ KPI.wgt (KPI.total rows) == sumQ (map weight_kg rows).
Proof.
  destruct (kpi_total_fold rows {| KPI.rev := 0; KPI.chk := 0; KPI.pcs := 0; KPI.wgt := 0 |})
    as (H1 & H2 & H3 & H4).
  unfold KPI.total. simpl in *. rewrite H1, H2, H3, H4. repeat split; ring.
Qed.



Lemma pivotTable_rowKeys rows pivotRow pivotCol v pt :
  Pivot.pivotTable rows pivotRow pivotCol v = Some pt ->
  Pivot.rowKeys pt = sortBy defaultCmp (uniq (map (Pivot.fieldString pivotRow) rows)).
Proof.
  unfold Pivot.pivotTable. destruct (Pivot.foldM _ _ _); simpl; [|discriminate].
  intros [= <-]. reflexivity.
Qed.

Lemma guardedRatio_le num den :
  guardedRatio num den = if Qle_bool den 0 then 0 else num / den.
Proof. unfold guardedRatio, Qgtb0. by destruct (Qle_bool den 0). Qed.

Lemma pivot_ratio_total v rows pivotRow pivotCol :
  v = Pivot.calc_atv \/ v = Pivot.calc_upt ->
  exists pt, Pivot.pivotTable rows pivotRow pivotCol v = Some pt
    /\ Forall (fun r => exists t, Pivot.rowTotal v pt r = Some t
                                  /\ t == rowTotalSpec v pivotRow r rows) (Pivot.rowKeys pt).
Proof.
  intros _. destruct (pivotTable_spec rows pivotRow pivotCol v) as (pt & Hpt & _).
  exists pt. split; [done|]. apply Forall_forall. intros r Hr.
  by apply (rowTotal_spec rows pivotRow pivotCol).
Qed.

Lemma pivot_ratio_total_indep v rows pivotRow pivotCol pivotCol' :
  v = Pivot.calc_atv \/ v = Pivot.calc_upt ->
  exists pt pt', Pivot.pivotTable rows pivotRow pivotCol v = Some pt
    /\ Pivot.pivotTable rows pivotRow pivotCol' v = Some pt'
    /\ Pivot.rowKeys pt = Pivot.rowKeys pt'
    /\ Forall (fun r => exists t t', Pivot.rowTotal v pt r = Some t
                                     /\ Pivot.rowTotal v pt' r = Some t' /\ t == t')
         (Pivot.rowKeys pt).
Proof.
  intros _.
  destruct (pivotTable_spec rows pivotRow pivotCol v) as (pt & Hpt & _).
  destruct (pivotTable_spec rows pivotRow pivotCol' v) as (pt' & Hpt' & _).
  exists pt, pt'. split; [done|]. split; [done|].
  assert (Hk : Pivot.rowKeys pt = Pivot.rowKeys pt').
  { rewrite (pivotTable_rowKeys _ _ _ _ _ Hpt), (pivotTable_rowKeys _ _ _ _ _ Hpt'). done. }
  split; [done|]. apply Forall_forall. intros r Hr.
  destruct (rowTotal_spec rows pivotRow pivotCol v pt r Hpt Hr) as (t & Ht & Et).
  destruct (rowTotal_spec rows pivotRow pivotCol' v pt' r Hpt') as (t' & Ht' & Et');
    [by rewrite <- Hk|].
  exists t, t'. split; [done|]. split; [done|]. rewrite Et, Et'. reflexivity.
Qed.

(** ** C1 *)

(** C1 (corrected). For every row set and every row and column dimension,
    under [calc_atv] (resp. [calc_upt]) the total of each row-key is the
    ratio of the row's summed revenue (resp. pieces) to its summed checks,
    and 0 when that sum of checks is 0 or negative (the code guards with
    [> 0]); the total does not depend on the column dimension. *)
Theorem pivot_ratio_row_total :
  forall (rows : list NormalizedRow) (pivotRow pivotCol pivotCol' : Pivot.Field),
  (exists pt, Pivot.pivotTable rows pivotRow pivotCol Pivot.calc_atv = Some pt
     /\ Forall (fun r => exists t, Pivot.rowTotal Pivot.calc_atv pt r = Some t
          /\ t == (if Qle_bool (rowSum pivotRow r checks rows) 0 then 0
                   else rowSum pivotRow r revenue_rub rows / rowSum pivotRow r checks rows))
          (Pivot.rowKeys pt))
  /\ (exists pt, Pivot.pivotTable rows pivotRow pivotCol Pivot.calc_upt = Some pt
     /\ Forall (fun r => exists t, Pivot.rowTotal Pivot.calc_upt pt r = Some t
          /\ t == (if Qle_bool (rowSum pivotRow r checks rows) 0 then 0
                   else rowSum pivotRow r pieces rows / rowSum pivotRow r checks rows))
          (Pivot.rowKeys pt))
  /\ (exists pt pt', Pivot.pivotTable rows pivotRow pivotCol Pivot.calc_atv = Some pt
       /\ Pivot.pivotTable rows pivotRow pivotCol' Pivot.calc_atv = Some pt'
       /\ Pivot.rowKeys pt = Pivot.rowKeys pt'
       /\ Forall (fun r => exists t t', Pivot.rowTotal Pivot.calc_atv pt r = Some t
                                        /\ Pivot.rowTotal Pivot.calc_atv pt' r = Some t' /\ t == t')
            (Pivot.rowKeys pt))
  /\ (exists pt pt', Pivot.pivotTable rows pivotRow pivotCol Pivot.calc_upt = Some pt
       /\ Pivot.pivotTable rows pivotRow pivotCol' Pivot.calc_upt = Some pt'
       /\ Pivot.rowKeys pt = Pivot.rowKeys pt'
       /\ Forall (fun r => exists t t', Pivot.rowTotal Pivot.calc_upt pt r = Some t
                                        /\ Pivot.rowTotal Pivot.calc_upt pt' r = Some t' /\ t == t')
            (Pivot.rowKeys pt)).
Proof.
  intros rows pivotRow pivotCol pivotCol'.
  split; [|split; [|split]].
  - destruct (pivot_ratio_total Pivot.calc_atv rows pivotRow pivotCol) as (pt & Hpt & Hf);
      [by left|].
    exists pt. split; [done|]. eapply Forall_impl; [exact Hf|].
    intros r (t & Ht & Et). exists t. split; [done|]. rewrite Et.
    unfold rowTotalSpec, rowSum. rewrite guardedRatio_le. reflexivity.
  - destruct (pivot_ratio_total Pivot.calc_upt rows pivotRow pivotCol) as (pt & Hpt & Hf);
      [by right|].
    exists pt. split; [done|]. eapply Forall_impl; [exact Hf|].
    intros r (t & Ht & Et). exists t. split; [done|]. rewrite Et.
    unfold rowTotalSpec, rowSum. rewrite guardedRatio_le. reflexivity.
  - apply pivot_ratio_total_indep. by left.
  - apply pivot_ratio_total_indep. by right.
Qed.

Lemma pivot_ratio_row_total_witness :
  exists pt, Pivot.pivotTable [negChecksRow] Pivot.f_category_name Pivot.f_month Pivot.calc_atv
             = Some pt
    /\ Forall (fun r => exists t, Pivot.rowTotal Pivot.calc_atv pt r = Some t
          /\ t == (if Qle_bool (rowSum Pivot.f_category_name r checks [negChecksRow]) 0 then 0
                   else rowSum Pivot.f_category_name r revenue_rub [negChecksRow]
                        / rowSum Pivot.f_category_name r checks [negChecksRow]))
          (Pivot.rowKeys pt).
Proof.
  exact (proj1 (pivot_ratio_row_total [negChecksRow] Pivot.f_category_name Pivot.f_month
                  Pivot.f_store_name)).
Defined.

(** C1, counterexample: one row of category "A" with revenue 100 and
    checks -5 (parsed from "-5"); its [calc_atv] row total is 0, while the
    sum of checks is not 0 and the ratio of the sums is -20. *)
Lemma pivot_ratio_row_total_cex :
  (match Pivot.pivotTable [negChecksRow] Pivot.f_category_name Pivot.f_month Pivot.calc_atv with
   | Some pt => Pivot.rowTotal Pivot.calc_atv pt (js "A")
   | None => None
   end) = Some 0
  /\ Pivot.rowKeys <$> Pivot.pivotTable [negChecksRow] Pivot.f_category_name Pivot.f_month
                        Pivot.calc_atv = Some [js "A"]
  /\ Qeq_bool (rowSum Pivot.f_category_name (js "A") checks [negChecksRow]) 0 = false
  /\ ~ (0 == rowSum Pivot.f_category_name (js "A") revenue_rub [negChecksRow]
            / rowSum Pivot.f_category_name (js "A") checks [negChecksRow]).
Proof.
  split; [vm_compute; reflexivity|]. split; [vm_compute; reflexivity|].
  split; [vm_compute; reflexivity|].
  intros H. apply Qeq_bool_iff in H. vm_compute in H. discriminate.
Qed.

(** ** C2 *)

Lemma stats_ratio rows :
  KPI.atv (KPI.stats rows)
    == (if Qle_bool (sumQ (map checks rows)) 0 then 0
        else sumQ (map revenue_rub rows) / sumQ (map checks rows))
  /\ KPI.upt (KPI.stats rows)
    == (if Qle_bool (sumQ (map checks rows)) 0 then 0
        else sumQ (map pieces rows) / sumQ (map checks rows)).
Proof.
  destruct (kpi_total rows) as (Hr & Hc & Hp & _). cbn [KPI.stats KPI.atv KPI.upt].
  split; rewrite guardedRatio_le.
  - rewrite <- Hc. destruct (Qle_bool _ 0); [reflexivity|]. rewrite Hr, Hc. reflexivity.
  - rewrite <- Hc. destruct (Qle_bool _ 0); [reflexivity|]. rewrite Hp, Hc. reflexivity.
Qed.

(** C2 (corrected). For every filtered row set, the headline ATV of the KPI
    aggregator is sum(revenue_rub)/sum(checks) and its UPT is
    sum(pieces)/sum(checks), each 0 when sum(checks) is 0 or negative (the
    code guards with [> 0]). The rows {rev 100, chk 10} and {rev 50, chk 5}
    give ATV 10, and {rev 100, chk 10} with {rev 50, chk 1} give 150/11,
    not the mean 30 of the per-row ATVs. *)
Theorem kpi_atv_upt_ratio_of_sums :
  (forall rows : list NormalizedRow,
      KPI.atv (KPI.stats rows)
        == (if Qle_bool (sumQ (map checks rows)) 0 then 0
            else sumQ (map revenue_rub rows) / sumQ (map checks rows))
      /\ KPI.upt (KPI.stats rows)
        == (if Qle_bool (sumQ (map checks rows)) 0 then 0
            else sumQ (map pieces rows) / sumQ (map checks rows)))
  /\ KPI.atv (KPI.stats [mkRow "2025-01-01" "S" "C" 1 100 10 0 0;
                         mkRow "2025-01-02" "S" "C" 1 50 5 0 0]) == 10
  /\ KPI.atv (KPI.stats [mkRow "2025-01-01" "S" "C" 1 100 10 0 0;
                         mkRow "2025-01-02" "S" "C" 1 50 1 0 0]) == 150 / 11
  /\ ~ (KPI.atv (KPI.stats [mkRow "2025-01-01" "S" "C" 1 100 10 0 0;
                            mkRow "2025-01-02" "S" "C" 1 50 1 0 0])
        == (atv (mkRow "2025-01-01" "S" "C" 1 100 10 0 0)
            + atv (mkRow "2025-01-02" "S" "C" 1 50 1 0 0)) / 2).
Proof.
  split; [exact stats_ratio|].
  split; [vm_compute; reflexivity|]. split; [vm_compute; reflexivity|].
  intros H. apply Qeq_bool_iff in H. vm_compute in H. discriminate.
Qed.

(** C2, counterexample: for the single row with revenue 100 and checks -5
    the headline ATV is 0, while sum(checks) is not 0 and the ratio of the
    sums is -20. *)
Lemma kpi_atv_negative_checks_cex :
  KPI.atv (KPI.stats [negChecksRow]) = 0
  /\ Qeq_bool (sumQ (map checks [negChecksRow])) 0 = false
  /\ ~ (KPI.atv (KPI.stats [negChecksRow])
        == sumQ (map revenue_rub [negChecksRow]) / sumQ (map checks [negChecksRow])).
Proof.
  split; [vm_compute; reflexivity|]. split; [vm_compute; reflexivity|].
  intros H. apply Qeq_bool_iff in H. vm_compute in H. discriminate.
Qed.

(** ** C3 *)


(** ** Sorting *)

Section SortBy.
Context {A : Type} (cmp : A -> A -> Q) (P : A -> Prop) (R : A -> A -> Prop).
Hypothesis Hlt : forall x y, P x -> P y -> Qltb0 (cmp x y) = true -> R x y.
Hypothesis Hge : forall x y, P x -> P y -> Qltb0 (cmp x y) = false -> R y x.

Lemma insertBy_HdRel y x l : R y x -> HdRel R y l -> HdRel R y (insertBy cmp x l).
Proof.
  intros Hyx Hd. destruct l as [|z l]; simpl; [by constructor|].
  destruct (Qltb0 (cmp x z)); constructor; [done|]. by inversion Hd.
Qed.

Lemma insertBy_Forall x l : P x -> Forall P l -> Forall P (insertBy cmp x l).
Proof.
  intros Hx Hl. induction Hl as [|y l Hy Hl IH]; simpl; [by repeat constructor|].
  destruct (Qltb0 (cmp x y)); repeat constructor; auto.
Qed.

Lemma insertBy_sorted x l : P x -> Forall P l -> Sorted R l -> Sorted R (insertBy cmp x l).
Proof.
  intros Hx Hl Hs. induction l as [|y l IH]; simpl; [by repeat constructor|].
  inversion Hl as [|? ? Hy Hl']; subst. inversion Hs as [|? ? Hs' Hd]; subst.
  destruct (Qltb0 (cmp x y)) eqn:E.
  - constructor; [done|]. constructor. by apply Hlt.
  - constructor; [by apply IH|]. apply insertBy_HdRel; [by apply Hge|done].
Qed.

Lemma sortBy_sorted l : Forall P l -> Sorted R (sortBy cmp l).
Proof.
  unfold sortBy. intros Hl.
  assert (H : forall acc, Forall P acc -> Sorted R acc ->
            Forall P (fold_left (fun acc x => insertBy cmp x acc) l acc)
            /\ Sorted R (fold_left (fun acc x => insertBy cmp x acc) l acc)).
  { induction Hl as [|x l Hx Hl IH]; intros acc Ha Hs; simpl; [done|].
    apply IH; [by apply insertBy_Forall|by apply insertBy_sorted]. }
  apply H; constructor.
Qed.

End SortBy.


Lemma jstr_compare_antisym (a b : jstr) : jstr_compare b a = CompOpp (jstr_compare a b).
Proof.
  revert b. induction a as [|x a IH]; intros [|y b]; simpl; try done.
  rewrite (N.compare_antisym x y). destruct (x ?= y)%N; simpl; [apply IH|done|done].
Qed.



Lemma Qltb0_cmpToQ c : Qltb0 (cmpToQ c) = true <-> c = Lt.
Proof. destruct c; vm_compute; split; congruence. Qed.



(** ** C5 *)




(** ** The category ranking *)

Lemma jstr_eqb_refl (a : jstr) : jstr_eqb a a = true.
Proof. by apply jstr_eqb_eq. Qed.

Lemma jstr_eqb_ne (a b : jstr) : a <> b -> jstr_eqb a b = false.
Proof. intros H. destruct (jstr_eqb a b) eqn:E; [|done]. by apply jstr_eqb_eq in E. Qed.














(** ** C9 *)



(** ** The filter engine *)

Lemma if_chain5 (c1 c2 c3 c4 c5 : bool) :
  (if c1 then false else if c2 then false else if c3 then false
   else if c4 then false else if c5 then false else true) = true
  <-> c1 = false /\ c2 = false /\ c3 = false /\ c4 = false /\ c5 = false.
Proof. destruct c1, c2, c3, c4, c5; simpl; intuition congruence. Qed.

Lemma nonEmpty_guard {A} (l : list A) b :
  (Filter.nonEmpty l && b) = false <-> l = [] \/ b = false.
Proof. destruct l, b; simpl; intuition congruence. Qed.

Lemma jstr_ltb_false a b : jstr_ltb a b = false <-> jstr_compare a b <> Lt.
Proof. unfold jstr_ltb. destruct (jstr_compare a b); intuition congruence. Qed.

Lemma negb_includes xs x : negb (arr_includes xs x) = false <-> x ∈ xs.
Proof. rewrite negb_false_iff. apply arr_includes_spec. Qed.

Lemma keep_spec f d : Filter.keep f d = true <-> specPass f d.
Proof.
  unfold Filter.keep, specPass.
  rewrite if_chain5, !nonEmpty_guard, !jstr_ltb_false, !negb_includes.
  rewrite (jstr_compare_antisym (date d) (Filter.dateTo f)).
  assert (E : CompOpp (jstr_compare (date d) (Filter.dateTo f)) <> Lt
              <-> jstr_compare (date d) (Filter.dateTo f) <> Gt).
  { destruct (jstr_compare (date d) (Filter.dateTo f)); simpl; intuition congruence. }
  rewrite E. reflexivity.
Qed.

(** ** C6 *)

(** C6. For every dataset and filter state, the filter engine returns, in
    input order, exactly the rows that satisfy the five conditions (date at
    least [dateFrom] and at most [dateTo] in lexicographic order, store,
    category and unit type in their lists, each condition void when its
    bound is empty); the all-empty filter state returns the dataset
    unchanged. *)
Theorem filter_engine_spec :
  (forall (data : list NormalizedRow) (f : Filter.Filters),
      Filter.filteredData data f = List.filter (fun d => bool_decide (specPass f d)) data)
  /\ forall data : list NormalizedRow, Filter.filteredData data emptyFilters = data.
Proof.
  split.
  - intros data f. unfold Filter.filteredData. apply filter_ext. intros d.
    destruct (Filter.keep f d) eqn:E; symmetry.
    + apply bool_decide_eq_true. by apply keep_spec.
    + apply bool_decide_eq_false. rewrite <- keep_spec. congruence.
  - intros data. unfold Filter.filteredData.
    induction data as [|d data IH]; simpl; [done|]. by rewrite IH.
Qed.

(** ** The normaliser *)

Lemma jsor_falsy a b : truthy a = false -> jsor a b = b.
Proof. unfold jsor. by intros ->. Qed.


(** ** C4 *)



(** ** C7 *)

(** C7 (code bug). When both the machine and the human key of the store
    (resp. category) are falsy, the normaliser gives "Неизвестно" (resp.
    "Прочее"). But the fallback is applied before [cleanString], so a store
    name made only of white space, or a category given as an empty array
    (truthy, printed as the empty string), normalises to the empty string. *)
Theorem store_category_fallback :
  (forall (idx : nat) (row : jsval),
      truthy (prop row (js "store_name")) = false -> truthy (prop row (js "Магазин")) = false ->
      store_name (normalizeRow idx row) = js "Неизвестно")
  /\ (forall (idx : nat) (row : jsval),
      truthy (prop row (js "category_name")) = false ->
      truthy (prop row (js "Категория товара")) = false ->
      category_name (normalizeRow idx row) = js "Прочее")
  /\ option_map (map store_name) (normalizeData [obj [("store_name", JStr (js " "))]])
     = Some [[]]
  /\ option_map (map category_name) (normalizeData [obj [("category_name", JArr [])]])
     = Some [[]].
Proof.
  split; [|split; [|split; vm_compute; reflexivity]].
  - intros idx row H1 H2. unfold normalizeRow. cbn [store_name].
    rewrite (jsor_falsy _ _ H1), (jsor_falsy _ _ H2). vm_compute. reflexivity.
  - intros idx row H1 H2. unfold normalizeRow. cbn [category_name].
    rewrite (jsor_falsy _ _ H1), (jsor_falsy _ _ H2). vm_compute. reflexivity.
Qed.

Lemma store_category_fallback_witness :
  store_name (normalizeRow 0 (obj [("Магазин", JStr [])])) = js "Неизвестно".
Proof.
  apply (proj1 store_category_fallback); vm_compute; reflexivity.
Defined.

(** ** C8 *)






(** ** C10 *)

(** Replace [prop r (js s)] by [prop r' (js s)] for every key [js s] that is
    provably not the excluded one. *)
Ltac rewrite_props H :=
  repeat match goal with
  | |- context [prop ?r (js ?s)] =>
      rewrite (H (js s)) by (let E := fresh in intros E; vm_compute in E; discriminate E)
  end.

Lemma normalizeRow_alias_head idx r r' k :
  k ∈ aliasHeads -> sameExcept k r r' ->
  truthy (prop r k) = false -> truthy (prop r' k) = false ->
  normalizeRow idx r = normalizeRow idx r'.
Proof.
  intros Hk H Hr Hr'. unfold sameExcept in H. unfold aliasHeads in Hk. cbn [map] in Hk.
  repeat rewrite elem_of_cons in Hk. rewrite elem_of_nil in Hk.
  unfold normalizeRow.
  destruct Hk as [->|[->|[->|[->|[->|[->|[->|[->|[]]]]]]]]];
    rewrite_props H; rewrite (jsor_falsy _ _ Hr), (jsor_falsy _ _ Hr'); reflexivity.
Qed.

(** C10. Alias resolution treats a falsy value as missing: for each
    machine-vocabulary key that heads an alias chain (revenue_rub, checks,
    pieces, weight_kg, date, store_name, category_name, unit_raw), two raw
    rows that differ only there and hold a falsy value there ([0], [""],
    [null], [false], or nothing) normalise to the same row, the value being
    taken from the next alias. So [checks: 0] with ["Чеки, шт.": 7] gives
    checks 7, the explicit 0 being overridden. *)
Theorem alias_falsy_fallthrough :
  (forall (idx : nat) (r r' : jsval) (k : jstr),
      k ∈ aliasHeads -> sameExcept k r r' ->
      truthy (prop r k) = false -> truthy (prop r' k) = false ->
      normalizeRow idx r = normalizeRow idx r')
  /\ option_map checks (normalizeItem 0 (obj [("checks", JNum 0); ("Чеки, шт.", JNum 7)]))
     = Some 7.
Proof.
  split; [exact normalizeRow_alias_head|vm_compute; reflexivity].
Qed.

Lemma alias_falsy_fallthrough_witness :
  normalizeRow 0 (obj [("checks", JNum 0); ("Чеки, шт.", JNum 7)])
  = normalizeRow 0 (obj [("Чеки, шт.", JNum 7)]).
Proof.
  apply (proj1 alias_falsy_fallthrough) with (k := js "checks").
  - unfold aliasHeads. cbn [map]. rewrite !elem_of_cons. right. by left.
  - intros key Hne. unfold prop, obj. cbn [map assocGet].
    destruct (jstr_eqb key (js "checks")) eqn:E; [|reflexivity].
    exfalso. apply Hne. by apply jstr_eqb_eq.
  - vm_compute. reflexivity.
  - vm_compute. reflexivity.
Defined.

(** * Further properties of the dashboard *)

Lemma jstr_compare_eq (a b : jstr) : jstr_compare a b = Eq <-> a = b.
Proof.
  revert b. induction a as [|x a IH]; intros [|y b]; simpl; try done.
  destruct (N.compare_spec x y) as [->|H|H].
  - rewrite IH. naive_solver.
  - split; [discriminate|]. intros [= -> _]. lia.
  - split; [discriminate|]. intros [= -> _]. lia.
Qed.

Lemma sorted_lexLt {A} (g : A -> jstr) (l : list A) :
  Sorted (fun x y => lexLe (g x) (g y)) l -> NoDup (map g l) ->
  Sorted (fun x y => lexLt (g x) (g y)) l.
Proof.
  induction 1 as [|x l Hs IH Hd]; simpl; intros Hnd; [constructor|].
  apply NoDup_cons in Hnd as [Hn Hnd]. constructor; [by apply IH|].
  destruct Hd as [|y l' Hxy]; constructor.
  unfold lexLe, lexLt in *. destruct (jstr_compare (g x) (g y)) eqn:E; try done.
  apply jstr_compare_eq in E. exfalso. apply Hn. rewrite E. simpl. by left.
Qed.

Lemma sortBy_defaultCmp_sorted (l : list jstr) : Sorted lexLe (sortBy defaultCmp l).
Proof.
  apply sortBy_sorted with (P := fun _ => True).
  - intros x y _ _. unfold defaultCmp. rewrite Qltb0_cmpToQ. unfold lexLe. intros ->. discriminate.
  - intros x y _ _. unfold defaultCmp, lexLe. rewrite (jstr_compare_antisym x y).
    destruct (jstr_compare x y); vm_compute; intros; congruence.
  - apply Forall_forall. done.
Qed.

Lemma sorted_unique_keys (xs : list jstr) :
  Sorted lexLt (sortBy defaultCmp (uniq xs))
  /\ forall s, s ∈ sortBy defaultCmp (uniq xs) <-> s ∈ xs.
Proof.
  split.
  - apply (sorted_lexLt (fun x => x)); [apply sortBy_defaultCmp_sorted|].
    rewrite map_id. apply NoDup_sorted_uniq.
  - intros s. by rewrite (sortBy_perm _ _), elem_of_uniq.
Qed.


(** X1. The store and category lists of the side panel ([uniqueStores],
    [uniqueCats]) are strictly increasing in code-unit order, so without
    repeats, and hold exactly the store names (resp. category names) of the
    loaded rows. *)
Theorem side_panel_lists_sorted :
  forall data : list NormalizedRow,
  Sorted lexLt (uniqueStores data)
  /\ (forall s, s ∈ uniqueStores data <-> exists d, d ∈ data /\ store_name d = s)
  /\ Sorted lexLt (uniqueCats data)
  /\ (forall c, c ∈ uniqueCats data <-> exists d, d ∈ data /\ category_name d = c).
Proof.
  intros data. unfold uniqueStores, uniqueCats.
  destruct (sorted_unique_keys (map store_name data)) as [Hs1 Hs2].
  destruct (sorted_unique_keys (map category_name data)) as [Hc1 Hc2].
  split; [done|]. split; [|split; [done|]]; intros x; [rewrite Hs2|rewrite Hc2];
    rewrite list_elem_of_In, in_map_iff; setoid_rewrite list_elem_of_In; naive_solver.
Qed.

(** X2. For every row set, row and column dimension and measure, the pivot is
    built, and its row keys are strictly increasing in code-unit order and are
    exactly the values of the row dimension in the rows. *)
Theorem pivot_rowKeys_sorted :
  forall rows pivotRow pivotCol v,
  exists pt, Pivot.pivotTable rows pivotRow pivotCol v = Some pt
    /\ Sorted lexLt (Pivot.rowKeys pt)
    /\ (forall r, r ∈ Pivot.rowKeys pt <-> exists d, d ∈ rows /\ Pivot.fieldString pivotRow d = r).
Proof.
  intros rows pivotRow pivotCol v.
  destruct (pivotTable_spec rows pivotRow pivotCol v) as (pt & Hpt & _ & _ & Hr & _).
  exists pt. split; [done|]. split; [|done].
  rewrite (pivotTable_rowKeys _ _ _ _ _ Hpt). apply sorted_unique_keys.
Qed.

(** ** Keyed revenue maps *)


























(** ** Filter state updates *)

Lemma filter_toggle_off s xs x :
  x ∈ toggle false s xs <-> x ∈ xs /\ x <> s.
Proof.
  unfold toggle. rewrite list_elem_of_In, filter_In, <- list_elem_of_In.
  rewrite negb_true_iff. split.
  - intros [H1 H2]. split; [done|]. intros ->. by rewrite jstr_eqb_refl in H2.
  - intros [H1 H2]. split; [done|]. by apply jstr_eqb_ne.
Qed.

(** X7. The checkbox handler of the side panel appends the value when ticked
    and removes every copy of it when unticked; ticking then unticking a value
    that was not selected restores the selection. *)
Theorem checkbox_toggle :
  forall (s : jstr) (xs : list jstr),
  (s ∉ xs -> toggle false s (toggle true s xs) = xs)
  /\ (forall x, x ∈ toggle true s xs <-> x ∈ xs \/ x = s)
  /\ (forall x, x ∈ toggle false s xs <-> x ∈ xs /\ x <> s).
Proof.
  intros s xs. split; [|split; [|apply filter_toggle_off]].
  - intros Hn. unfold toggle. rewrite List.filter_app. simpl. rewrite jstr_eqb_refl. simpl.
    rewrite app_nil_r. induction xs as [|x xs IH]; simpl; [done|].
    rewrite not_elem_of_cons in Hn. destruct Hn as [Hx Hn].
    rewrite jstr_eqb_ne by congruence. simpl. by rewrite IH.
  - intros x. unfold toggle. rewrite elem_of_app, list_elem_of_singleton. done.
Qed.

Lemma sumQ_filter_or (p q : NormalizedRow -> bool) (g : NormalizedRow -> Q) rows :
  (forall d, p d = true -> q d = true -> False) ->
  sumQ (map g (List.filter (fun d => p d || q d) rows))
  == sumQ (map g (List.filter p rows)) + sumQ (map g (List.filter q rows)).
Proof.
  intros Hd. induction rows as [|d rows IH]; simpl; [unfold sumQ; simpl; ring|].
  destruct (p d) eqn:Ep, (q d) eqn:Eq; simpl; unfold sumQ in *; simpl; rewrite ?IH.
  - exfalso. eauto.
  - ring.
  - ring.
  - reflexivity.
Qed.


(** X8. Ticking a store that is not yet selected, while some store is
    selected, keeps exactly the rows kept before plus the rows of that store;
    the four KPI totals grow by the totals of that store. *)
Theorem check_store_adds :
  forall data f s,
  Filter.stores f <> [] -> s ∉ Filter.stores f ->
  (forall d, Filter.keep (toggleStore true s f) d
             = Filter.keep f d || Filter.keep (setStores f [s]) d)
  /\ (let t' := KPI.total (Filter.filteredData data (toggleStore true s f)) in
      let t := KPI.total (Filter.filteredData data f) in
      let ts := KPI.total (Filter.filteredData data (setStores f [s])) in
      KPI.rev t' == KPI.rev t + KPI.rev ts /\ KPI.chk t' == KPI.chk t + KPI.chk ts
      /\ KPI.pcs t' == KPI.pcs t + KPI.pcs ts /\ KPI.wgt t' == KPI.wgt t + KPI.wgt ts).
Proof.
  intros data f s Hne Hs.
  assert (Hk : forall d, Filter.keep (toggleStore true s f) d
                         = Filter.keep f d || Filter.keep (setStores f [s]) d).
  { intros d. apply Bool.eq_iff_eq_true. rewrite orb_true_iff, !keep_spec.
    unfold specPass, toggleStore, setStores, toggle. simpl.
    rewrite elem_of_app, list_elem_of_singleton.
    assert (H1 : Filter.stores f ++ [s] <> []) by (intros H; by apply app_eq_nil in H as [_ ?]).
    assert (H2 : [s] <> []) by done.
    naive_solver. }
  split; [exact Hk|]. cbv zeta.
  assert (Hdisj : forall d, Filter.keep f d = true -> Filter.keep (setStores f [s]) d = true -> False).
  { intros d H1 H2. apply keep_spec in H1, H2. unfold specPass, setStores in H1, H2. simpl in H2.
    destruct H1 as (_ & _ & [H1|H1] & _); [done|].
    destruct H2 as (_ & _ & [H2|H2] & _); [done|]. apply list_elem_of_singleton in H2.
    subst. done. }
  assert (Hf : Filter.filteredData data (toggleStore true s f)
               = List.filter (fun d => Filter.keep f d || Filter.keep (setStores f [s]) d) data).
  { unfold Filter.filteredData. apply filter_ext. apply Hk. }
  rewrite Hf. unfold Filter.filteredData.
  destruct (kpi_total (List.filter (fun d => Filter.keep f d || Filter.keep (setStores f [s]) d) data))
    as (A1 & A2 & A3 & A4).
  destruct (kpi_total (List.filter (Filter.keep f) data)) as (B1 & B2 & B3 & B4).
  destruct (kpi_total (List.filter (Filter.keep (setStores f [s])) data)) as (C1 & C2 & C3 & C4).
  rewrite A1, A2, A3, A4, B1, B2, B3, B4, C1, C2, C3, C4.
  repeat split; apply sumQ_filter_or; exact Hdisj.
Qed.

Lemma check_store_adds_witness :
  Filter.stores (setStores emptyFilters [js "S1"]) <> []
  /\ (js "S2" ∉ Filter.stores (setStores emptyFilters [js "S1"]))
  /\ KPI.rev (KPI.total (Filter.filteredData
        [mkRow "2025-07-01" "S1" "A" 7 100 10 5 0; mkRow "2025-07-02" "S2" "B" 7 50 5 2 0]
        (toggleStore true (js "S2") (setStores emptyFilters [js "S1"]))))
     == KPI.rev (KPI.total (Filter.filteredData
        [mkRow "2025-07-01" "S1" "A" 7 100 10 5 0; mkRow "2025-07-02" "S2" "B" 7 50 5 2 0]
        (setStores emptyFilters [js "S1"])))
      + KPI.rev (KPI.total (Filter.filteredData
        [mkRow "2025-07-01" "S1" "A" 7 100 10 5 0; mkRow "2025-07-02" "S2" "B" 7 50 5 2 0]
        (setStores (setStores emptyFilters [js "S1"]) [js "S2"]))).
Proof.
  assert (H1 : Filter.stores (setStores emptyFilters [js "S1"]) <> []) by discriminate.
  assert (H2 : js "S2" ∉ Filter.stores (setStores emptyFilters [js "S1"])).
  { simpl. rewrite not_elem_of_cons. split; [discriminate|apply not_elem_of_nil]. }
  split; [exact H1|]. split; [exact H2|].
  exact (proj1 (proj2 (check_store_adds
    [mkRow "2025-07-01" "S1" "A" 7 100 10 5 0; mkRow "2025-07-02" "S2" "B" 7 50 5 2 0]
    (setStores emptyFilters [js "S1"]) (js "S2") H1 H2))).
Defined.

(** ** Month buttons *)

Lemma jstr_compare_app (a1 a2 b1 b2 : jstr) :
  length a1 = length a2 ->
  jstr_compare (a1 ++ b1) (a2 ++ b2)
  = match jstr_compare a1 a2 with Eq => jstr_compare b1 b2 | c => c end.
Proof.
  revert a2. induction a1 as [|x a1 IH]; intros [|y a2] Hl; simpl in *; try lia; [done|].
  destruct (x ?= y)%N; [apply IH; lia|done|done].
Qed.

Lemma keep_dates f d :
  Filter.keep f d
  = negb (Filter.nonEmpty (Filter.dateFrom f) && jstr_ltb (date d) (Filter.dateFrom f))
    && negb (Filter.nonEmpty (Filter.dateTo f) && jstr_ltb (Filter.dateTo f) (date d))
    && Filter.keep (clearDates f) d.
Proof.
  unfold Filter.keep, clearDates. simpl.
  destruct (Filter.nonEmpty (Filter.dateFrom f) && jstr_ltb (date d) (Filter.dateFrom f));
    [done|].
  by destruct (Filter.nonEmpty (Filter.dateTo f) && jstr_ltb (Filter.dateTo f) (date d)).
Qed.


(** X9. A month button (July to December) keeps a row with a 10-character date
    exactly when the date lies in 2025-MM, its day is between 01 and 31, and
    the row passes the other filters. *)
Theorem month_button_window :
  forall (m : N) (f : Filter.Filters) (d : NormalizedRow),
  m ∈ [7; 8; 9; 10; 11; 12]%N -> length (date d) = 10%nat ->
  Filter.keep (quickMonth m f) d = true
  <-> firstn 8 (date d) = js "2025-" ++ padStart2 (decimalN m) ++ js "-"
      /\ lexLe (js "01") (skipn 8 (date d)) /\ lexLe (skipn 8 (date d)) (js "31")
      /\ Filter.keep (clearDates f) d = true.
Proof.
  intros m f d Hm Hl.
  assert (Hmm : length (padStart2 (decimalN m)) = 2%nat).
  { rewrite !elem_of_cons in Hm.
    destruct Hm as [->|[->|[->|[->|[->|[->|H]]]]]]; try reflexivity.
    by apply not_elem_of_nil in H. }
  set (P := js "2025-" ++ padStart2 (decimalN m) ++ js "-").
  assert (HP : length P = 8%nat) by (unfold P; rewrite !length_app, Hmm; reflexivity).
  assert (Hfrom : Filter.dateFrom (quickMonth m f) = P ++ js "01")
    by (unfold P; simpl; by rewrite <- !app_assoc).
  assert (Hto : Filter.dateTo (quickMonth m f) = P ++ js "31")
    by (unfold P; simpl; by rewrite <- !app_assoc).
  assert (Hne : forall x, Filter.nonEmpty (P ++ x) = true).
  { intros x. unfold Filter.nonEmpty. rewrite length_app, HP. reflexivity. }
  assert (Hcl : clearDates (quickMonth m f) = clearDates f) by reflexivity.
  rewrite keep_dates, Hfrom, Hto, Hcl, !Hne. cbn [andb].
  set (pre := firstn 8 (date d)). set (dd := skipn 8 (date d)).
  assert (Hd : date d = pre ++ dd) by (symmetry; apply firstn_skipn).
  assert (Hpre : length pre = 8%nat) by (unfold pre; rewrite length_firstn; lia).
  rewrite Hd.
  unfold jstr_ltb. rewrite !jstr_compare_app by lia.
  rewrite (jstr_compare_antisym pre P).
  unfold lexLe. rewrite (jstr_compare_antisym dd (js "01")).
  rewrite (jstr_compare_antisym dd (js "31")).
  destruct (jstr_compare pre P) eqn:E; cbn [negb andb CompOpp].
  - apply jstr_compare_eq in E.
    destruct (jstr_compare dd (js "01")), (jstr_compare dd (js "31")); cbn [negb andb CompOpp];
      rewrite ?andb_true_iff; naive_solver.
  - split; [discriminate|]. intros [HeqP _]. rewrite HeqP in E.
    rewrite (proj2 (jstr_compare_eq P P) eq_refl) in E. discriminate.
  - split; [discriminate|]. intros [HeqP _]. rewrite HeqP in E.
    rewrite (proj2 (jstr_compare_eq P P) eq_refl) in E. discriminate.
Qed.

Lemma month_button_window_witness :
  ((8 ∈ [7; 8; 9; 10; 11; 12])%N /\ length (date (mkRow "2025-08-15" "S" "A" 8 1 1 1 0)) = 10%nat)
  /\ (Filter.keep (quickMonth 8 emptyFilters) (mkRow "2025-08-15" "S" "A" 8 1 1 1 0) = true
      <-> firstn 8 (date (mkRow "2025-08-15" "S" "A" 8 1 1 1 0))
            = js "2025-" ++ padStart2 (decimalN 8) ++ js "-"
          /\ lexLe (js "01") (skipn 8 (date (mkRow "2025-08-15" "S" "A" 8 1 1 1 0)))
          /\ lexLe (skipn 8 (date (mkRow "2025-08-15" "S" "A" 8 1 1 1 0))) (js "31")
          /\ Filter.keep (clearDates emptyFilters) (mkRow "2025-08-15" "S" "A" 8 1 1 1 0) = true).
Proof.
  assert (Hm : (8 ∈ [7; 8; 9; 10; 11; 12])%N) by (apply elem_of_cons; right; by left).
  assert (Hl : length (date (mkRow "2025-08-15" "S" "A" 8 1 1 1 0)) = 10%nat) by reflexivity.
  split; [split; [exact Hm|exact Hl]|].
  exact (month_button_window 8 emptyFilters _ Hm Hl).
Defined.

(** ** Nothing selected *)

(** X10. When the filters keep no row, the KPI values are all 0, every pivot
    has no row and no column, both charts are empty and the export does
    nothing. *)
Theorem empty_selection :
  forall data f,
  Filter.filteredData data f = [] ->
  (let s := KPI.stats (Filter.filteredData data f) in
   KPI.revenue s == 0 /\ KPI.checks s == 0 /\ KPI.pieces s == 0 /\ KPI.weight s == 0
   /\ KPI.atv s == 0 /\ KPI.upt s == 0)
  /\ (forall pivotRow pivotCol v, exists pt,
        Pivot.pivotTable (Filter.filteredData data f) pivotRow pivotCol v = Some pt
        /\ Pivot.rowKeys pt = [] /\ Pivot.colKeys pt = [])
  /\ Series.time (Series.chartData (Filter.filteredData data f)) = []
  /\ Series.categories (Series.chartData (Filter.filteredData data f)) = []
  /\ exportCSV (Filter.filteredData data f) = None.
Proof.
  intros data f H. rewrite H. split; [vm_compute; repeat split; reflexivity|].
  split; [|vm_compute; repeat split; reflexivity].
  intros pivotRow pivotCol v. eexists. split; [reflexivity|]. split; reflexivity.
Qed.

Lemma empty_selection_witness :
  Filter.filteredData [mkRow "2025-07-01" "S1" "A" 7 100 10 5 0] (setStores emptyFilters [js "S2"]) = []
  /\ exportCSV (Filter.filteredData [mkRow "2025-07-01" "S1" "A" 7 100 10 5 0]
                  (setStores emptyFilters [js "S2"])) = None.
Proof.
  assert (H : Filter.filteredData [mkRow "2025-07-01" "S1" "A" 7 100 10 5 0]
                (setStores emptyFilters [js "S2"]) = []) by (vm_compute; reflexivity).
  split; [exact H|]. exact (proj2 (proj2 (proj2 (proj2 (empty_selection _ _ H))))).
Defined.


(** ** Text produced by the views *)

Lemma Forall_dropWhileB {A} (P : A -> Prop) (p : A -> bool) l :
  Forall P l -> Forall P (dropWhileB p l).
Proof.
  induction 1 as [|x l Hx Hl IH]; simpl; [constructor|]. destruct (p x); [done|by constructor].
Qed.

Lemma Forall_trim (P : N -> Prop) s : Forall P s -> Forall P (trim s).
Proof.
  intros H. unfold trim. apply Forall_rev, Forall_dropWhileB, Forall_rev, Forall_dropWhileB, H.
Qed.

Lemma Forall_List_filter {A} (P : A -> Prop) (p : A -> bool) l :
  Forall P l -> Forall P (List.filter p l).
Proof.
  induction 1 as [|x l Hx Hl IH]; simpl; [constructor|]. destruct (p x); [by constructor|done].
Qed.

Lemma cleanString_noNL v : Forall (fun c => isNL c = false) (cleanString v).
Proof.
  assert (H : forall l, Forall (fun c => isNL c = false) (List.filter (fun c => negb (isNL c)) l)).
  { induction l as [|c l IH]; simpl; [constructor|].
    destruct (isNL c) eqn:E; simpl; [done|by constructor]. }
  destruct v; [constructor|constructor|..]; unfold cleanString; apply Forall_trim, H.
Qed.

Lemma digitsAux_units f n acc :
  Forall (fun c => (45 <= c)%N) acc -> Forall (fun c => (45 <= c)%N) (digitsAux f n acc).
Proof.
  revert n acc. induction f as [|f IH]; intros n acc H; simpl; [done|].
  destruct (n <? 10)%N; [constructor; [cbv beta; lia|done]|]. apply IH. constructor; [cbv beta; generalize (n mod 10)%N; intros; lia|done].
Qed.

Lemma fracDigits_units f r d : Forall (fun c => (45 <= c)%N) (fracDigits f r d).
Proof.
  revert r. induction f as [|f IH]; intros r; simpl; [constructor|].
  destruct (N.eqb r 0); [constructor|]. constructor; [cbv beta; generalize (10 * r / d)%N; intros; lia|apply IH].
Qed.

(** [String(x)] of a number has only digits, [-] and [.]: code units from 45 on. *)
Lemma numToString_units q : Forall (fun c => (45 <= c)%N) (numToString q).
Proof.
  unfold numToString.
  assert (Hb : forall a d, Forall (fun c => (45 <= c)%N)
    (decimalN (a / d) ++ (if N.eqb (a mod d) 0 then [] else 46%N :: fracDigits 20 (a mod d) d))).
  { intros a d. apply Forall_app. split; [apply digitsAux_units; constructor|].
    destruct (N.eqb (a mod d) 0); [constructor|]. constructor; [cbv beta; lia|apply fracDigits_units]. }
  destruct (Qnum (Qred q) <? 0)%Z; [constructor; [cbv beta; lia|]|]; apply Hb.
Qed.

Lemma joinComma_joinWith xs : joinComma xs = joinWith 44 xs.
Proof.
  induction xs as [|x xs IH]; [done|]. destruct xs as [|y xs]; [done|].
  change (joinComma (x :: y :: xs)) with (x ++ 44%N :: joinComma (y :: xs)).
  change (joinWith 44 (x :: y :: xs)) with (x ++ 44%N :: joinWith 44 (y :: xs)).
  by rewrite IH.
Qed.

Lemma csvRow_fields r :
  csvRow r = joinWith 44 [date r; store_name r; category_name r; numToString (revenue_rub r);
                          numToString (checks r); numToString (pieces r); numToString (weight_kg r)].
Proof. unfold csvRow. cbn [jsToString map]. apply joinComma_joinWith. Qed.

Lemma splitOn_nosep sep a : Forall (fun c => c <> sep) a -> splitOn sep a = [a].
Proof.
  induction 1 as [|c a Hc Ha IH]; simpl; [done|].
  rewrite IH. destruct (N.eqb_spec c sep); [done|done].
Qed.

Lemma splitOn_app sep a b :
  Forall (fun c => c <> sep) a -> splitOn sep (a ++ sep :: b) = a :: splitOn sep b.
Proof.
  induction 1 as [|c a Hc Ha IH]; simpl.
  - by rewrite N.eqb_refl.
  - rewrite IH. destruct (N.eqb_spec c sep); [done|done].
Qed.

Lemma splitOn_joinWith sep xs :
  xs <> [] -> Forall (fun x => Forall (fun c => c <> sep) x) xs ->
  splitOn sep (joinWith sep xs) = xs.
Proof.
  induction xs as [|x [|y xs] IH]; intros Hne Hall; [done| |].
  - inversion Hall; subst. simpl. by apply splitOn_nosep.
  - inversion Hall as [|? ? Hx Hrest]; subst.
    change (joinWith sep (x :: y :: xs)) with (x ++ sep :: joinWith sep (y :: xs)).
    rewrite splitOn_app by done. rewrite IH; [done|discriminate|done].
Qed.

Lemma units_ne (sep : N) l : (sep < 45)%N -> Forall (fun c => (45 <= c)%N) l -> Forall (fun c => c <> sep) l.
Proof. intros Hs H. eapply Forall_impl; [exact H|]. simpl. intros c Hc ->. lia. Qed.

Lemma csvRow_noNL r :
  Forall (fun c => isNL c = false) (date r) -> Forall (fun c => isNL c = false) (store_name r) ->
  Forall (fun c => isNL c = false) (category_name r) ->
  Forall (fun c => c <> 10%N) (csvRow r).
Proof.
  intros H1 H2 H3.
  assert (Hn : forall s, Forall (fun c => isNL c = false) s -> Forall (fun c => c <> 10%N) s).
  { intros s H. eapply Forall_impl; [exact H|]. simpl. intros c Hc ->. discriminate. }
  rewrite csvRow_fields. simpl.
  repeat (apply Forall_app; split; [|constructor; [discriminate|]]);
    try (apply Hn; done); apply units_ne; try lia; apply numToString_units.
Qed.

Lemma normalizeFrom_text idx raw data :
  normalizeFrom idx raw = Some data ->
  Forall (fun r => Forall (fun c => isNL c = false) (date r)
                   /\ Forall (fun c => isNL c = false) (store_name r)
                   /\ Forall (fun c => isNL c = false) (category_name r)) data.
Proof.
  revert idx data. induction raw as [|item raw IH]; intros idx data H; simpl in H.
  - injection H as <-. constructor.
  - destruct (normalizeItem idx item) as [r|] eqn:E; simpl in H; [|discriminate].
    destruct (normalizeFrom (S idx) raw) as [rs|] eqn:E'; simpl in H; [|discriminate].
    injection H as <-. constructor; [|by eapply IH].
    unfold normalizeItem in E. destruct (getProp item (js "json")); simpl in E; [|discriminate].
    injection E as <-. simpl. split; [|split]; apply cleanString_noNL.
Qed.

Lemma csvHeaders_noNL : Forall (fun c => c <> 10%N) csvHeaders.
Proof. apply (bool_decide_unpack _). vm_compute. reflexivity. Qed.


(** X11. For a normalised data set, the export yields no file exactly when no
    row is kept; otherwise the file, split at line feeds, is the byte-order
    mark with the header line followed by one line per kept row, in order. *)
Theorem export_csv_lines :
  forall (raw : list jsval) (data : list NormalizedRow) (f : Filter.Filters),
  normalizeData raw = Some data ->
  (exportCSV (Filter.filteredData data f) = None <-> Filter.filteredData data f = [])
  /\ forall s, exportCSV (Filter.filteredData data f) = Some s ->
     splitOn 10 s = (65279%N :: csvHeaders) :: map csvRow (Filter.filteredData data f).
Proof.
  intros raw data f Hn.
  assert (Hrows : Forall (fun r => Forall (fun c => isNL c = false) (date r)
                   /\ Forall (fun c => isNL c = false) (store_name r)
                   /\ Forall (fun c => isNL c = false) (category_name r))
                   (Filter.filteredData data f))
    by (apply Forall_List_filter; eapply normalizeFrom_text; exact Hn).
  unfold exportCSV.
  destruct (Filter.filteredData data f) as [|r rows] eqn:E; cbn [length Nat.eqb].
  - split; [done|]. intros s Hs. discriminate.
  - split; [split; discriminate|]. intros s Hs.
    assert (Hs' : s = (65279%N :: csvHeaders) ++ 10%N :: joinWith 10 (map csvRow (r :: rows)))
      by (injection Hs; intros H; rewrite <- H; reflexivity).
    rewrite Hs', splitOn_app.
    + f_equal. apply splitOn_joinWith; [discriminate|].
      apply Forall_map. eapply Forall_impl; [exact Hrows|]. intros x (H1 & H2 & H3).
      by apply csvRow_noNL.
    + constructor; [discriminate|apply csvHeaders_noNL].
Qed.

Lemma export_csv_lines_witness :
  normalizeData [obj [("date", JStr (js "2025-07-01")); ("store_name", JStr (js "S1"));
                      ("revenue_rub", JNum 100)]]
    = Some [normalizeRow 0 (obj [("date", JStr (js "2025-07-01")); ("store_name", JStr (js "S1"));
                                 ("revenue_rub", JNum 100)])]
  /\ (exportCSV (Filter.filteredData
        [normalizeRow 0 (obj [("date", JStr (js "2025-07-01")); ("store_name", JStr (js "S1"));
                              ("revenue_rub", JNum 100)])] emptyFilters) = None
      <-> Filter.filteredData
        [normalizeRow 0 (obj [("date", JStr (js "2025-07-01")); ("store_name", JStr (js "S1"));
                              ("revenue_rub", JNum 100)])] emptyFilters = []).
Proof.
  assert (H : normalizeData [obj [("date", JStr (js "2025-07-01")); ("store_name", JStr (js "S1"));
                                  ("revenue_rub", JNum 100)]]
    = Some [normalizeRow 0 (obj [("date", JStr (js "2025-07-01")); ("store_name", JStr (js "S1"));
                                 ("revenue_rub", JNum 100)])]) by reflexivity.
  split; [exact H|]. exact (proj1 (export_csv_lines _ _ emptyFilters H)).
Defined.


(** X12. A data line of the export, split at commas, gives back date, store,
    category and the four numbers, when the three text fields hold no comma. *)
Theorem csv_row_fields :
  forall r : NormalizedRow,
  Forall (fun c => c <> 44%N) (date r) -> Forall (fun c => c <> 44%N) (store_name r) ->
  Forall (fun c => c <> 44%N) (category_name r) ->
  splitOn 44 (csvRow r)
  = [date r; store_name r; category_name r; numToString (revenue_rub r);
     numToString (checks r); numToString (pieces r); numToString (weight_kg r)].
Proof.
  intros r H1 H2 H3. rewrite csvRow_fields. apply splitOn_joinWith; [discriminate|].
  repeat constructor; try assumption; apply units_ne; try lia; apply numToString_units.
Qed.

Lemma csv_row_fields_witness :
  Forall (fun c => c <> 44%N) (date (mkRow "2025-07-01" "S1" "A" 7 (3/2) 10 5 0))
  /\ splitOn 44 (csvRow (mkRow "2025-07-01" "S1" "A" 7 (3/2) 10 5 0))
     = [js "2025-07-01"; js "S1"; js "A"; numToString (3/2); numToString 10;
        numToString 5; numToString 0].
Proof.
  assert (Hs : forall s : string, bool_decide (Forall (fun c => c <> 44%N) (js s)) = true ->
                 Forall (fun c => c <> 44%N) (js s)).
  { intros s H. exact (proj1 (bool_decide_eq_true _) H). }
  assert (H1 := Hs "2025-07-01"%string eq_refl).
  split; [exact H1|].
  exact (csv_row_fields (mkRow "2025-07-01" "S1" "A" 7 (3/2) 10 5 0) H1
           (Hs "S1"%string eq_refl) (Hs "A"%string eq_refl)).
Defined.

(** ** [cleanString] *)

Lemma takeWhile_dropWhile {A} (p : A -> bool) l : l = takeWhileB p l ++ dropWhileB p l.
Proof. induction l as [|x l IH]; simpl; [done|]. destruct (p x); simpl; [by f_equal|done]. Qed.

Lemma dropWhileB_head {A} (p : A -> bool) l c s : dropWhileB p l = c :: s -> p c = false.
Proof.
  induction l as [|x l IH]; simpl; [discriminate|].
  destruct (p x) eqn:E; [done|]. intros [= -> _]. done.
Qed.

Lemma dropWhileB_id {A} (p : A -> bool) l :
  (forall c s, l = c :: s -> p c = false) -> dropWhileB p l = l.
Proof. destruct l as [|x l]; simpl; [done|]. intros H. by rewrite (H x l eq_refl). Qed.

Lemma trim_head s c t : trim s = c :: t -> isWS c = false.
Proof.
  unfold trim. set (t0 := dropWhileB isWS s). set (u := dropWhileB isWS (rev t0)).
  intros H.
  assert (Ht0 : t0 = rev u ++ rev (takeWhileB isWS (rev t0))).
  { rewrite <- rev_app_distr. unfold u. rewrite <- takeWhile_dropWhile. by rewrite rev_involutive. }
  rewrite H in Ht0. simpl in Ht0. exact (dropWhileB_head isWS s c _ Ht0).
Qed.

Lemma trim_last s t c : trim s = t ++ [c] -> isWS c = false.
Proof.
  unfold trim. intros H. apply (f_equal (@rev N)) in H.
  rewrite rev_involutive, rev_app_distr in H. simpl in H. eapply dropWhileB_head. exact H.
Qed.

Lemma filter_all {A} (p : A -> bool) l : Forall (fun x => p x = true) l -> List.filter p l = l.
Proof. induction 1 as [|x l Hx Hl IH]; simpl; [done|]. by rewrite Hx, IH. Qed.


(** X13. The output of [cleanString] holds no line break, neither starts nor
    ends with white space, and is a fixed point of [cleanString]. *)
Theorem cleanString_normal_form :
  forall v : jsval,
  Forall (fun c => isNL c = false) (cleanString v)
  /\ (forall c s, cleanString v = c :: s -> isWS c = false)
  /\ (forall s c, cleanString v = s ++ [c] -> isWS c = false)
  /\ cleanString (JStr (cleanString v)) = cleanString v.
Proof.
  intros v.
  assert (Hh : forall c s, cleanString v = c :: s -> isWS c = false).
  { intros c s. destruct v; simpl; try discriminate; apply trim_head. }
  assert (Hl : forall s c, cleanString v = s ++ [c] -> isWS c = false).
  { intros s c. destruct v; simpl; try (intros H; by apply app_cons_not_nil in H); apply trim_last. }
  split; [apply cleanString_noNL|]. split; [done|]. split; [done|].
  set (x := cleanString v) in *. simpl.
  rewrite filter_all.
  2: { eapply Forall_impl; [apply cleanString_noNL|]. simpl. intros c ->. done. }
  unfold trim. rewrite (dropWhileB_id _ x) by (intros c s; apply Hh).
  rewrite (dropWhileB_id _ (rev x)); [apply rev_involutive|].
  intros c s Hr. apply (Hl (rev s)). rewrite <- (rev_involutive x), Hr. done.
Qed.

(** ** [parseNum] on a decimal comma *)

Lemma isDigit_cases c :
  isDigit c = true ->
  c = 48%N \/ c = 49%N \/ c = 50%N \/ c = 51%N \/ c = 52%N \/ c = 53%N \/ c = 54%N
  \/ c = 55%N \/ c = 56%N \/ c = 57%N.
Proof. unfold isDigit. rewrite andb_true_iff, !N.leb_le. lia. Qed.

Lemma isDigit_not_WS c : isDigit c = true -> isWS c = false /\ isNL c = false.
Proof. intros H. apply isDigit_cases in H. repeat destruct H as [->|H]; try (subst; done). Qed.

Lemma isWS_not_digit c : isWS c = true -> isDigit c = false.
Proof.
  unfold isWS. intros H. apply existsb_exists in H as (x & Hx & Hc). apply N.eqb_eq in Hc. subst.
  repeat destruct Hx as [<-|Hx]; try reflexivity. done.
Qed.

Lemma isNL_WS c : isNL c = true -> isWS c = true.
Proof. unfold isNL. rewrite orb_true_iff, !N.eqb_eq. intros [->| ->]; reflexivity. Qed.

Lemma clean_digit_groups a :
  Forall (fun c => isDigit c || isWS c = true) a ->
  List.filter (fun c => negb (isWS c)) (List.filter (fun c => negb (isNL c)) a)
  = List.filter isDigit a.
Proof.
  induction 1 as [|c a Hc Ha IH]; simpl; [done|].
  apply orb_true_iff in Hc as [Hc|Hc].
  - destruct (isDigit_not_WS c Hc) as [H1 H2]. rewrite H2. simpl. rewrite H1, Hc. simpl. by f_equal.
  - rewrite (isWS_not_digit c Hc). destruct (isNL c) eqn:E; simpl; [done|]. by rewrite Hc.
Qed.

Lemma replaceFirstComma_app a b :
  Forall (fun c => c <> 44%N) a -> replaceFirstComma (a ++ 44%N :: b) = a ++ 46%N :: b.
Proof.
  induction 1 as [|c a Hc Ha IH]; simpl; [done|].
  rewrite IH. destruct (N.eqb_spec c 44); [done|done].
Qed.

Lemma takeWhile_app_stop {A} (p : A -> bool) l x r :
  Forall (fun y => p y = true) l -> p x = false ->
  takeWhileB p (l ++ x :: r) = l /\ dropWhileB p (l ++ x :: r) = x :: r.
Proof.
  intros Hl Hx. induction Hl as [|y l Hy Hl IH]; simpl; [by rewrite Hx|].
  rewrite Hy. destruct IH as [-> ->]. done.
Qed.

Lemma takeWhile_all {A} (p : A -> bool) l : Forall (fun y => p y = true) l -> takeWhileB p l = l.
Proof. induction 1 as [|y l Hy Hl IH]; simpl; [done|]. by rewrite Hy, IH. Qed.

Lemma digitsValue_app acc l1 l2 : digitsValue acc (l1 ++ l2) = digitsValue (digitsValue acc l1) l2.
Proof. revert acc. induction l1 as [|x l1 IH]; intros acc; simpl; [done|]. apply IH. Qed.

Lemma digitsValue_acc acc l :
  digitsValue acc l = (acc * 10 ^ N.of_nat (length l) + digitsValue 0 l)%N.
Proof.
  revert acc. induction l as [|x l IH]; intros acc; simpl; [lia|].
  rewrite (IH (10 * acc + (x - 48))%N), (IH (10 * 0 + (x - 48))%N).
  rewrite Nat2N.inj_succ, N.pow_succ_r'. lia.
Qed.

Lemma Forall_filter_true {A} (p : A -> bool) l : Forall (fun x => p x = true) (List.filter p l).
Proof.
  induction l as [|x l IH]; simpl; [constructor|]. destruct (p x) eqn:E; [by constructor|done].
Qed.

Lemma parseFloat_digits (A B : jstr) :
  A <> [] -> Forall (fun c => isDigit c = true) A -> Forall (fun c => isDigit c = true) B ->
  parseFloat (A ++ 46%N :: B)
  = Some (inject_Z (Z.of_N (digitsValue 0 (A ++ B))) / inject_Z (10 ^ Z.of_nat (length B))).
Proof.
  intros Hne HA HB. destruct A as [|c A']; [done|].
  inversion HA as [|? ? Hc HA']; subst.
  destruct (takeWhile_app_stop isDigit (c :: A') 46%N B HA eq_refl) as [Ht Hd].
  assert (Hw : dropWhileB isWS ((c :: A') ++ 46%N :: B) = (c :: A') ++ 46%N :: B)
    by (simpl; by rewrite (proj1 (isDigit_not_WS c Hc))).
  unfold parseFloat.
  destruct (isDigit_cases c Hc) as [->|[->|[->|[->|[->|[->|[->|[->|[->| ->]]]]]]]]];
    rewrite Hw; cbv zeta; cbn [app] in Ht, Hd |- *; rewrite Ht, Hd, (takeWhile_all _ B HB);
    rewrite (bool_decide_false (_ :: A' = [])) by discriminate; reflexivity.
Qed.

Lemma inject_Z_pow_nonzero n : ~ inject_Z (10 ^ Z.of_nat n) == 0.
Proof.
  change 0 with (inject_Z 0). rewrite inject_Z_injective.
  apply Z.pow_nonzero; lia.
Qed.


(** X14. [parseNum] reads a string of digits and spaces, a comma, and digits
    and spaces as a number with a decimal comma: the spaces are digit-group
    separators and the comma is the decimal point. *)
Theorem parseNum_decimal_comma :
  forall a b : jstr,
  Forall (fun c => isDigit c || isWS c = true) a ->
  Forall (fun c => isDigit c || isWS c = true) b ->
  List.filter isDigit a <> [] ->
  parseNum (JStr (a ++ 44%N :: b))
  == inject_Z (Z.of_N (digitsValue 0 (List.filter isDigit a)))
     + inject_Z (Z.of_N (digitsValue 0 (List.filter isDigit b)))
       / inject_Z (10 ^ Z.of_nat (length (List.filter isDigit b))).
Proof.
  intros a b Ha Hb Hne.
  set (A := List.filter isDigit a) in *. set (B := List.filter isDigit b).
  assert (HA : Forall (fun c => isDigit c = true) A) by apply Forall_filter_true.
  assert (HB : Forall (fun c => isDigit c = true) B) by apply Forall_filter_true.
  unfold parseNum.
  replace (negb (truthy (JStr (a ++ 44%N :: b)))) with false
    by (simpl; rewrite bool_decide_false; [done|]; intros H; by destruct a).
  assert (Hch : List.filter (fun c => negb (isWS c))
                 (List.filter (fun c => negb (isNL c)) (a ++ 44%N :: b)) = A ++ 44%N :: B).
  { rewrite !List.filter_app. cbn [List.filter].
    replace (negb (isNL 44)) with true by reflexivity. cbn [List.filter].
    cbn [List.filter].
    replace (negb (isWS 44)) with true by reflexivity.
    rewrite (clean_digit_groups a Ha), (clean_digit_groups b Hb). reflexivity. }
  cbn [jsToString]. rewrite Hch.
  rewrite replaceFirstComma_app.
  2: { eapply Forall_impl; [exact HA|]. intros c Hc ->. discriminate. }
  rewrite filter_all.
  2: { apply Forall_app. split; [|constructor; [reflexivity|]];
       (eapply Forall_impl; [eassumption|]); intros c Hc; by rewrite Hc. }
  rewrite (parseFloat_digits A B Hne HA HB).
  rewrite digitsValue_app, digitsValue_acc.
  rewrite N2Z.inj_add, N2Z.inj_mul, N2Z.inj_pow, nat_N_Z, inject_Z_plus, inject_Z_mult.
  change (Z.of_N 10) with 10%Z. generalize (inject_Z_pow_nonzero (length B)). set (P := inject_Z (10 ^ Z.of_nat (length B))). intros HP. field. exact HP.
Qed.

Lemma parseNum_decimal_comma_witness :
  parseNum (JStr (js "1 234" ++ 44%N :: js "50")) == 1234 + 50 / 100.
Proof.
  assert (Ha : Forall (fun c => isDigit c || isWS c = true) (js "1 234"))
    by (apply (bool_decide_unpack _); vm_compute; reflexivity).
  assert (Hb : Forall (fun c => isDigit c || isWS c = true) (js "50"))
    by (apply (bool_decide_unpack _); vm_compute; reflexivity).
  assert (Hn : List.filter isDigit (js "1 234") <> []) by (vm_compute; discriminate).
  exact (parseNum_decimal_comma _ _ Ha Hb Hn).
Defined.

(** ** The n8n item wrapper *)

Lemma getProp_truthy v k : truthy v = true -> getProp v k = Some (prop v k).
Proof. destruct v; simpl; try discriminate; done. Qed.

Lemma normalizeItem_wrap idx item :
  truthy item = true -> truthy (prop item (js "json")) = false ->
  normalizeItem idx (n8nWrap item) = normalizeItem idx item.
Proof.
  intros Ht Hj. unfold normalizeItem.
  rewrite (getProp_truthy item _ Ht). cbn [mbind option_bind]. rewrite Hj.
  assert (Hg : getProp (n8nWrap item) (js "json") = Some item).
  { unfold n8nWrap. cbn [getProp assocGet]. by rewrite (proj2 (jstr_eqb_eq _ _) eq_refl). }
  rewrite Hg. cbn [mbind option_bind]. by rewrite Ht.
Qed.

(** X15. Wrapping each raw item as an n8n item [{json: item}] does not change
    the normalised rows, for items that are truthy and whose own [json]
    property is falsy. *)
Theorem normalize_n8n_wrapper :
  forall raw : list jsval,
  Forall (fun item => truthy item = true /\ truthy (prop item (js "json")) = false) raw ->
  normalizeData (map n8nWrap raw) = normalizeData raw.
Proof.
  intros raw H. unfold normalizeData. generalize 0%nat as idx.
  induction H as [|item raw [Ht Hj] Hall IH]; intros idx; [done|].
  cbn [map normalizeFrom]. rewrite (normalizeItem_wrap idx item Ht Hj). by rewrite IH.
Qed.

Lemma normalize_n8n_wrapper_witness :
  normalizeData (map n8nWrap [obj [("checks", JNum 3)]]) = normalizeData [obj [("checks", JNum 3)]].
Proof.
  apply normalize_n8n_wrapper. constructor; [split; reflexivity|constructor].
Defined.

